(** * seal_solver: the socket communicator, the job supervisor and the worker

    A shallow embedding of [src/main.py] ([Communicator], [JuliaSolver]) and
    of [src/utils/julia_runner_thread.py] ([JuliaWorkerThread]).

    Conventions of the embedding:
    - a Python [str] is a [string]; its characters are the code points
      0..255, which covers every separator and every literal of the source;
    - a method is a computation in the monad [M S], which threads the state
      of the object and may raise: the state reached when an exception
      leaves a method is kept, as Python keeps the mutations done so far;
    - what the operating system, Qt or the external solver answer (the
      signals a socket fires, socket waits, path tests, the uuid generator,
      the clock, the solver, the writing of a file) is an input of the
      model;
    - a Python [dict] is an insertion-ordered association list. *)

From Stdlib Require Import String Ascii List Bool Arith ZArith Lia.
Import ListNotations.
Open Scope list_scope.
Open Scope string_scope.

(** ** Python strings *)

Definition nl : string := String (ascii_of_nat 10) "".

(** [str.isspace] on one character, for the code points below 256. *)
Definition isspace (c : ascii) : bool :=
  let n := nat_of_ascii c in
  (((9 <=? n) && (n <=? 13)) || ((28 <=? n) && (n <=? 32))
   || (n =? 133) || (n =? 160))%nat.

Fixpoint lstrip (s : string) : string :=
  match s with
  | EmptyString => EmptyString
  | String c s' => if isspace c then lstrip s' else s
  end.

Fixpoint rstrip (s : string) : string :=
  match s with
  | EmptyString => EmptyString
  | String c s' =>
      match rstrip s' with
      | EmptyString => if isspace c then EmptyString else String c EmptyString
      | r => String c r
      end
  end.

(** [s.strip()] *)
Definition strip (s : string) : string := rstrip (lstrip s).

(** [sep in s], for a separator of one character. *)
Fixpoint contains (sep : ascii) (s : string) : bool :=
  match s with
  | EmptyString => false
  | String c s' => Ascii.eqb c sep || contains sep s'
  end.

(** [s.split(sep)], for a separator of one character (the source splits on
    [";"], ["="] and [","] only). The result is never empty. *)
Fixpoint split (sep : ascii) (s : string) : list string :=
  match s with
  | EmptyString => [EmptyString]
  | String c s' =>
      if Ascii.eqb c sep then EmptyString :: split sep s'
      else match split sep s' with
           | [] => [String c EmptyString]
           | x :: xs => String c x :: xs
           end
  end.

(** [sep.join(l)] *)
Fixpoint join (sep : string) (l : list string) : string :=
  match l with
  | [] => ""
  | [x] => x
  | x :: xs => x ++ sep ++ join sep xs
  end.

(** [str(b).lower()] *)
Definition lower_bool (b : bool) : string := if b then "true" else "false".

(** ** Python values *)

(** A value of a decoded message: a scalar string or a list of strings. *)
Inductive value : Type :=
| VStr (s : string)
| VList (l : list string).

(** The objects that reach the communicator from outside. *)
#[warning="-register-all"]
Inductive pyobj : Type :=
| PyNone
| PyInt (z : Z)
| PyStr (s : string)
| PyBytes (b : string)
| PyList (l : list pyobj)
| PyDict (d : list (string * value))
| PySocketError (e : string).   (* a QLocalSocket.LocalSocketError, by its text *)

(** The hashable job ids: [None] or a string. *)
Inductive pykey : Type :=
| KNone
| KStr (s : string).

Definition pykey_eq_dec (a b : pykey) : {a = b} + {a <> b}.
Proof. decide equality; apply string_dec. Defined.

(** [str(k)] *)
Definition str_of_key (k : pykey) : string :=
  match k with KNone => "None" | KStr s => s end.

(** What a job id read from a message can be: absent, a string, or a list
    when the field held a comma. *)
Inductive pyid : Type :=
| IdKey (k : pykey)
| IdList (l : list string).

Inductive exn : Type :=
| TypeError (msg : string)
| ValueError (msg : string)
| IndexError (msg : string)
| KeyError (key : pykey)
| Exception (msg : string)
| PoorlyFormed (pair : string) (keyValuePairs : list string)
| ExceptionOf (e : exn)
| SolverError (msg : string).

(** [type(x)] as an f-string prints it. *)
Definition type_repr (x : pyobj) : string :=
  match x with
  | PyNone => "<class 'NoneType'>"
  | PyInt _ => "<class 'int'>"
  | PyStr _ => "<class 'str'>"
  | PyBytes _ => "<class 'bytes'>"
  | PyList _ => "<class 'list'>"
  | PyDict _ => "<class 'dict'>"
  | PySocketError _ => "<enum 'LocalSocketError'>"
  end.

(** ** Computations with state and exceptions *)

Inductive result (A : Type) : Type :=
| Ok (a : A)
| Raise (e : exn).
Arguments Ok {A} a.
Arguments Raise {A} e.

Definition M (S A : Type) : Type := S -> S * result A.

Definition ret {S A} (a : A) : M S A := fun s => (s, Ok a).
Definition raise {S A} (e : exn) : M S A := fun s => (s, Raise e).
Definition bind {S A B} (m : M S A) (k : A -> M S B) : M S B :=
  fun s => match m s with
           | (s', Ok a) => k a s'
           | (s', Raise e) => (s', Raise e)
           end.
Definition modify {S} (f : S -> S) : M S unit := fun s => (f s, Ok tt).
Definition gets {S A} (f : S -> A) : M S A := fun s => (s, Ok (f s)).
Definition of_result {S A} (r : result A) : M S A := fun s => (s, r).

Declare Scope py_scope.
Delimit Scope py_scope with py.
Notation "x <- m ;; k" := (bind m (fun x => k))
  (at level 61, m at next level, right associativity) : py_scope.
Notation "m ;; k" := (bind m (fun _ => k))
  (at level 61, right associativity) : py_scope.
Open Scope py_scope.

(** [len(x)]: raises for an object without a length. *)
Definition len (x : pyobj) : result nat :=
  match x with
  | PyNone => Raise (TypeError "object of type 'NoneType' has no len()")
  | PyInt _ => Raise (TypeError "object of type 'int' has no len()")
  | PyStr s => Ok (String.length s)
  | PyBytes b => Ok (String.length b)
  | PyList l => Ok (List.length l)
  | PyDict d => Ok (List.length d)
  | PySocketError _ =>
      Raise (TypeError "object of type 'LocalSocketError' has no len()")
  end.

(** ** Python dictionaries *)

Section Dict.
Context {K V : Type}.
Variable eq_dec : forall a b : K, {a = b} + {a <> b}.

Definition dict : Type := list (K * V).

(** [d.get(k)] *)
Fixpoint dict_get (k : K) (d : dict) : option V :=
  match d with
  | [] => None
  | (k', v) :: d' => if eq_dec k k' then Some v else dict_get k d'
  end.

(** [k in d.keys()] *)
Definition dict_mem (k : K) (d : dict) : bool :=
  match dict_get k d with Some _ => true | None => false end.

(** The dictionary without its entry for [k]. *)
Fixpoint dict_remove (k : K) (d : dict) : dict :=
  match d with
  | [] => []
  | (k', v) :: d' => if eq_dec k k' then d' else (k', v) :: dict_remove k d'
  end.

(** [d.pop(k)]: the value and the remaining dictionary, [None] for the
    [KeyError] of an absent key. *)
Definition dict_pop (k : K) (d : dict) : option (V * dict) :=
  match dict_get k d with
  | Some v => Some (v, dict_remove k d)
  | None => None
  end.

(** [d.update({k: v})]: overwrites in place, or appends a new entry. *)
Fixpoint dict_update (d : dict) (k : K) (v : V) : dict :=
  match d with
  | [] => [(k, v)]
  | (k', v') :: d' =>
      if eq_dec k k' then (k', v) :: d' else (k', v') :: dict_update d' k v
  end.

Definition keys (d : dict) : list K := map fst d.

(** The representation invariant: one entry per key. *)
Definition dict_wf (d : dict) : Prop := NoDup (keys d).
End Dict.
Arguments dict : clear implicits.

(** ** Communicator *)

Inductive signal : Type :=
| sig_sent | sig_received | sig_started | sig_stopped | sig_stderr | sig_stdout.

(** The number of arguments each signal is declared with. *)
Definition arity (s : signal) : nat :=
  match s with
  | sig_sent => 1        (* Signal(str) *)
  | sig_received => 1    (* Signal(dict) *)
  | sig_started => 0     (* Signal() *)
  | sig_stopped => 0     (* Signal() *)
  | sig_stderr => 1      (* Signal(object) *)
  | sig_stdout => 1      (* Signal(str) *)
  end.

(** The signals of a socket that [configure] wires to a slot and that a
    connection attempt can fire; [errorOccurred] carries the error, given
    by its text. *)
Inductive socket_signal : Type :=
| connected
| errorOccurred (socketError : string).

(** How one endpoint answers: the signals it fires while [connectToServer]
    runs, the outcome of the bounded waits and of the validity probe, and
    its error texts. The attempt is settled when [connectToServer] returns,
    so the waits fire nothing. *)
Record QLocalSocket : Type := {
  connectToServer : list socket_signal;
  waitForConnected : bool;
  waitForDisconnected : bool;
  isValid : bool;
  error : string;
  errorString : string
}.

(** The communicator taken on its own: [emitted] records what its signals
    emit, [written] every payload handed to [__writeSocket.write], whether
    or not that socket is open. [connections] counts the calls of
    [configure]: Qt keeps every connection of a signal to a slot, so a slot
    connected [n] times runs [n] times when the signal fires. *)
Record Communicator : Type := {
  serverName : string;
  readSocket : QLocalSocket;
  writeSocket : QLocalSocket;
  isActive : bool;
  written : list string;                    (* payloads handed to the outbound socket *)
  emitted : list (signal * list pyobj);     (* signals emitted, oldest first *)
  connections : nat                         (* calls of configure so far *)
}.

Definition Communicator_init (name : option string) (rs ws : QLocalSocket)
  : Communicator :=
  {| serverName := match name with None => "JULIA_SERVER" | Some n => n end;
     readSocket := rs; writeSocket := ws;
     isActive := false; written := []; emitted := []; connections := 0 |}.

Definition set_isActive (b : bool) : M Communicator unit :=
  modify (fun c =>
    {| serverName := serverName c; readSocket := readSocket c;
       writeSocket := writeSocket c; isActive := b;
       written := written c; emitted := emitted c;
       connections := connections c |}).

(** [sig.emit(args)]: a call whose argument count differs from the
    declaration of the signal raises and emits nothing. *)
Definition emit (sg : signal) (args : list pyobj) : M Communicator unit :=
  if (List.length args =? arity sg)%nat then
    modify (fun c =>
      {| serverName := serverName c; readSocket := readSocket c;
         writeSocket := writeSocket c; isActive := isActive c;
         written := written c; emitted := (emitted c ++ [(sg, args)])%list;
         connections := connections c |})
  else raise (TypeError "wrong number of arguments in emit").

Definition write (msg : string) : M Communicator unit :=
  modify (fun c =>
    {| serverName := serverName c; readSocket := readSocket c;
       writeSocket := writeSocket c; isActive := isActive c;
       written := (written c ++ [msg])%list; emitted := emitted c;
       connections := connections c |}).

Definition send (data : string) : M Communicator unit :=
  let data := data ++ nl in
  write data ;;
  emit sig_sent [PyStr data].

Definition handleSocketErrors (error : pyobj) : M Communicator unit :=
  emit sig_stderr [error].

Definition handleReadSocketConnected : M Communicator unit :=
  send "read socket connected".
Definition handleWriteSocketConnected : M Communicator unit :=
  send "write socket connected".

(** [configure] connects [errorOccurred] and [connected] of both sockets,
    and [readyRead] of the read socket, to their slots once more. *)
Definition configure : M Communicator unit :=
  modify (fun c =>
    {| serverName := serverName c; readSocket := readSocket c;
       writeSocket := writeSocket c; isActive := isActive c;
       written := written c; emitted := emitted c;
       connections := S (connections c) |}).

Inductive endpoint : Type := ReadEnd | WriteEnd.

(** The slot [configure] connects a signal of an endpoint to. *)
Definition wired (which : endpoint) (sg : socket_signal)
  : M Communicator unit :=
  match sg with
  | errorOccurred e => handleSocketErrors (PySocketError e)
  | connected =>
      match which with
      | ReadEnd => handleReadSocketConnected
      | WriteEnd => handleWriteSocketConnected
      end
  end.

(** A slot run by Qt: an exception that leaves it is reported by the
    binding and does not reach the caller. *)
Definition invoke (h : M Communicator unit) : M Communicator unit :=
  fun c => (fst (h c), Ok tt).

Fixpoint times (n : nat) (h : M Communicator unit) : M Communicator unit :=
  match n with
  | 0 => ret tt
  | S n' => invoke h ;; times n' h
  end.

(** A socket fires signals: each runs its slot once per connection. *)
Fixpoint fire (which : endpoint) (sgs : list socket_signal)
  : M Communicator unit :=
  match sgs with
  | [] => ret tt
  | sg :: sgs' =>
      n <- gets connections ;;
      times n (wired which sg) ;;
      fire which sgs'
  end.

(** [prime]: the connect request of the read socket, then that of the
    write socket; each socket fires its signals during its request. *)
Definition prime : M Communicator unit :=
  c <- gets (fun c => c) ;;
  fire ReadEnd (connectToServer (readSocket c)) ;;
  fire WriteEnd (connectToServer (writeSocket c)).

Definition testSocketValidity : M Communicator bool :=
  c <- gets (fun c => c) ;;
  ret (isValid (readSocket c) && isValid (writeSocket c)).

Definition testConnections : M Communicator (bool * string) :=
  c <- gets (fun c => c) ;;
  let m := "" in
  let s1 := waitForConnected (writeSocket c) in
  let m := if negb s1
           then "Write Socket Failed to connect: [" ++ error (writeSocket c)
                ++ "] " ++ errorString (writeSocket c)
           else m in
  let s2 := waitForConnected (readSocket c) in
  let m := if negb s2
           then m ++ nl ++ "---" ++ nl ++ "Read Socket Failed to Connect: ["
                ++ error (readSocket c) ++ "] " ++ errorString (readSocket c)
           else m in
  ret (s1 && s2, m).

Definition testDisconnections : M Communicator (bool * string) :=
  c <- gets (fun c => c) ;;
  let m := "" in
  let s1 := waitForDisconnected (writeSocket c) in
  let m := if negb s1
           then "Write Socket Failed to disconnect: [" ++ error (writeSocket c)
                ++ "] " ++ errorString (writeSocket c)
           else m in
  let s2 := waitForDisconnected (readSocket c) in
  let m := if negb s2
           then m ++ nl ++ "---" ++ nl ++ "Read Socket Failed to disconnect: ["
                ++ error (readSocket c) ++ "] " ++ errorString (readSocket c)
           else m in
  ret (s1 && s2, m).

Definition start : M Communicator unit :=
  configure ;;
  prime ;;
  sm <- testConnections ;;
  (let '(state, message) := sm in
   if state then set_isActive true
   else emit sig_stderr
          [PyStr ("Failed to start connector, Sockets not properly primed."
                  ++ nl ++ message)]) ;;
  state <- testSocketValidity ;;
  if negb state then
    set_isActive false ;;
    emit sig_stderr [PyStr "Sockets Failed Validity Test"]
  else
    set_isActive true ;;
    emit sig_stdout [PyStr "Communicator Primed"] ;;
    emit sig_started [].

Definition stop : M Communicator unit :=
  (* disconnectFromServer on both sockets: requests only *)
  se <- testDisconnections ;;
  let '(state, error) := se in
  if state then
    emit sig_stdout [PyStr "Sockets disconnected"] ;;
    emit sig_stopped [] ;;
    set_isActive false
  else
    emit sig_stderr [PyStr ("Failed to disconnect sockets: " ++ nl); PyStr error].

(** The loop of [__parseInput] over the segments; [keyValuePairs] is the
    whole list, kept for the error message. *)
Fixpoint parse_pairs (keyValuePairs pairs : list string)
    (res : dict string value) : result (dict string value) :=
  match pairs with
  | [] => Ok res
  | raw :: rest =>
      let pair := strip raw in
      if (String.length pair =? 0)%nat then parse_pairs keyValuePairs rest res
      else if negb (contains "=" pair) then
        Raise (PoorlyFormed pair keyValuePairs)
      else
        match split "=" pair with
        | [key; value] =>
            let value := if contains "," value then VList (split "," value)
                         else VStr value in
            parse_pairs keyValuePairs rest (dict_update string_dec res key value)
        | [] | [_] => Raise (ValueError "not enough values to unpack (expected 2)")
        | _ => Raise (ValueError "too many values to unpack (expected 2)")
        end
  end.

Definition parseInput (data : pyobj) : M Communicator (dict string value) :=
  let res : dict string value := [] in
  n <- of_result (len data) ;;
  if (n =? 0)%nat then
    emit sig_stdout [PyStr "[MSG]: empty string was passed, returning."] ;;
    ret res
  else
    match data with
    | PyStr s =>
        let keyValuePairs := split ";" s in
        of_result (parse_pairs keyValuePairs keyValuePairs res)
    | _ =>
        emit sig_stdout
          [PyStr ("[MSG]: Data with type '" ++ type_repr data
                  ++ "' was passed instead of 'str'.")] ;;
        ret res
    end.

(** [__handleReadSocketReadReady], given the text read from the socket. *)
Definition handleReadSocketReadReady (msg : string) : M Communicator unit :=
  data <- parseInput (PyStr msg) ;;
  emit sig_received [PyDict data].

(** ** The worker: JuliaWorkerThread *)

(** The values that come from outside Python (the arrays and scalars of the
    solver, the readings of the clock) are opaque; the environment subtracts
    two clock readings and prints one. *)
Class External (obj : Type) : Type := {
  fsub : obj -> obj -> obj;     (* et - st *)
  fstr : obj -> string          (* the text of {t} in an f-string *)
}.

(** [os.path.join(a, b)] of posixpath. *)
Definition startswith (c : ascii) (s : string) : bool :=
  match s with
  | String c' _ => Ascii.eqb c' c
  | EmptyString => false
  end.

Fixpoint endswith (c : ascii) (s : string) : bool :=
  match s with
  | EmptyString => false
  | String c' EmptyString => Ascii.eqb c' c
  | String _ s' => endswith c s'
  end.

Definition path_join (a b : string) : string :=
  if startswith "/" b then b
  else if (String.length a =? 0)%nat || endswith "/" a then a ++ b
  else a ++ "/" ++ b.

Section Jobs.
Context {obj : Type} `{External obj}.

(** What [np.save] is given: a result of the solver as it is, or the array
    built by [np.array([[...]])]. *)
Inductive saved : Type :=
| Value (x : obj)
| Array2 (rows : list (list obj)).

(** The answers of the environment during one start command. *)
Record Env : Type := {
  path_exists : string -> bool;             (* os.path.exists *)
  solve : string -> result (list obj);      (* SealSolver.solve *)
  save : string -> option saved -> result unit;  (* np.save *)
  time_st : obj;                            (* first time.time() *)
  time_et : obj;                            (* second time.time() *)
  uuid4 : string                            (* str(uuid4()) *)
}.

Record JuliaWorkerThread : Type := {
  oid : nat;                                (* identity of the object *)
  params : string * string;
  pid : string
}.

(** What a worker does to the outside. *)
Inductive wevent : Type :=
| Print (id : string) (text : string)            (* print((pid, text)) *)
| Save (file : string) (data : option saved)     (* np.save(file, data) done *)
| EmitStderr (id : string) (e : exn)             (* stderr.emit((pid, e)) *)
| EmitThreadFinished (id : string)               (* threadFinished.emit(pid) *)
| EmitThreadStarted (id : string).               (* threadStarted.emit(pid) *)

Definition JuliaWorkerThread_init (o : nat) (params : string * string)
    (pid : pykey) (env : Env) : JuliaWorkerThread :=
  {| oid := o; params := params;
     pid := match pid with KNone => uuid4 env | KStr s => s end |}.

Definition handleFinished (w : JuliaWorkerThread) : wevent :=
  EmitThreadFinished (pid w).
Definition handleStarted (w : JuliaWorkerThread) : wevent :=
  EmitThreadStarted (pid w).

Definition print (id text : string) : M (list wevent) unit :=
  modify (fun evs => evs ++ [Print id text])%list.

(** [np.save(file, data)]: the file is written, or the call raises what
    the environment answers and nothing is recorded as saved. *)
Definition np_save (env : Env) (file : string) (data : option saved)
  : M (list wevent) unit :=
  of_result (save env file data) ;;
  modify (fun evs => evs ++ [Save file data])%list.

(** [res[i]] on the tuple of the solver. *)
Definition index (res : list obj) (i : nat) : result obj :=
  match nth_error res i with
  | Some x => Ok x
  | None => Raise (IndexError "tuple index out of range")
  end.

(** The loop over [DATA.keys()]. *)
Fixpoint save_all (env : Env) (out_dir : string) (DATA : dict string saved)
    (ks : list string) : M (list wevent) unit :=
  match ks with
  | [] => ret tt
  | key :: ks' =>
      let file := path_join out_dir (key ++ ".npy") in
      let data := dict_get string_dec key DATA in
      np_save env file data ;;
      save_all env out_dir DATA ks'
  end.

(** The body of the [try] of [run]. *)
Definition run_body (env : Env) (w : JuliaWorkerThread)
  : M (list wevent) unit :=
  let '(in_dir, out_dir) := params w in
  (if negb (path_exists env in_dir)
   then raise (Exception ("Path " ++ in_dir ++ " does not exists"))
   else ret tt) ;;
  (if negb (path_exists env out_dir)
   then raise (Exception ("Path " ++ out_dir ++ " does not exists"))
   else ret tt) ;;
  print (pid w) "Working..." ;;
  let st := time_st env in
  print (pid w) "Priming Solver" ;;
  res <- of_result (solve env in_dir) ;;
  let et := time_et env in
  let t := fsub et st in
  print (pid w) ("[STATUS]: Computation Completed - " ++ fstr t ++ " secs") ;;
  print (pid w) "[STATUS]: Collecting Results" ;;
  r0 <- of_result (index res 0) ;;
  r1 <- of_result (index res 1) ;;
  r2 <- of_result (index res 2) ;;
  r3 <- of_result (index res 3) ;;
  r4 <- of_result (index res 4) ;;
  r5 <- of_result (index res 5) ;;
  r6 <- of_result (index res 6) ;;
  r7 <- of_result (index res 7) ;;
  r8 <- of_result (index res 8) ;;
  r9 <- of_result (index res 9) ;;
  let DATA : dict string saved :=
    [ ("c_save", Value r0);
      ("t_save", Value r1);
      ("w_save", Value r2);
      ("v_save", Value r3);
      ("regime_save", Value r4);
      ("PSI_save", Value r5);
      ("p_save", Value r6);
      ("mesh_config", Array2 [[r7; r8; r9; t]]) ] in
  save_all env out_dir DATA (keys DATA) ;;
  print (pid w) "[STATUS]: Results written to target files" ;;
  print (pid w) "action=completed".

(** [run]: an exception of the body becomes an emission of [stderr]. *)
Definition run (env : Env) (w : JuliaWorkerThread) : list wevent :=
  match run_body env w [] with
  | (evs, Ok _) => evs
  | (evs, Raise e) => (evs ++ [EmitStderr (pid w) e])%list
  end.

(** ** The supervisor: JuliaSolver *)

(** What the supervisor does to the thread objects, and what its workers
    do to the outside, oldest first. *)
Inductive effect : Type :=
| Create (w : JuliaWorkerThread)         (* JuliaWorkerThread(args, thread_id) *)
| Terminate (w : JuliaWorkerThread)      (* t.terminate() *)
| DeleteLater (w : JuliaWorkerThread)    (* t.deleteLater() *)
| Worker (ev : wevent)
| Unhandled (e : exn).                   (* an exception that left a slot *)

Record JuliaSolver : Type := {
  threads : dict pykey JuliaWorkerThread;
  communicator : Communicator;
  next_oid : nat;
  trace : list effect
}.

Definition set_threads (ths : dict pykey JuliaWorkerThread)
  : M JuliaSolver unit :=
  modify (fun s =>
    {| threads := ths; communicator := communicator s;
       next_oid := next_oid s; trace := trace s |}).

Definition record (e : effect) : M JuliaSolver unit :=
  modify (fun s =>
    {| threads := threads s; communicator := communicator s;
       next_oid := next_oid s; trace := (trace s ++ [e])%list |}).

(** A new object identity. *)
Definition fresh : M JuliaSolver nat :=
  fun s => ({| threads := threads s; communicator := communicator s;
               next_oid := S (next_oid s); trace := trace s |},
            Ok (next_oid s)).

(** A method of the communicator run on the supervisor's communicator. *)
Definition liftC {A} (m : M Communicator A) : M JuliaSolver A :=
  fun s => let '(c, r) := m (communicator s) in
           ({| threads := threads s; communicator := c;
               next_oid := next_oid s; trace := trace s |}, r).

(** An exception that leaves a slot does not unwind the emitter: the
    binding reports it and [emit] returns. *)
Definition slot (h : M JuliaSolver unit) : M JuliaSolver unit :=
  fun s => match h s with
           | (s', Ok _) => (s', Ok tt)
           | (s', Raise e) => record (Unhandled e) s'
           end.

Definition key_str (k : pykey) : option string :=
  match k with KNone => None | KStr s => Some s end.

Definition appendKeyValuePair (basePair key : string) (value : option string)
  : string :=
  let value := match value with None => "none" | Some v => v end in
  basePair ++ key ++ "=" ++ value ++ ";".

Definition logData (failed : bool) (text : option string) (log : bool)
    (thread_id : option string) : M JuliaSolver unit :=
  let msg := "" in
  let msg := appendKeyValuePair msg "failed" (Some (lower_bool failed)) in
  let msg := appendKeyValuePair msg "text" text in
  let msg := appendKeyValuePair msg "log" (Some (lower_bool log)) in
  let msg := appendKeyValuePair msg "pid" thread_id in
  liftC (send msg).

Definition JuliaSolver_init (name : option string) (rs ws : QLocalSocket)
    (args_str : string) : JuliaSolver :=
  fst (logData false
         (Some ("[STATUS]: Server Instantiated with params " ++ nl ++ " "
                ++ args_str)) true None
         {| threads := []; communicator := Communicator_init name rs ws;
            next_oid := 0; trace := [] |}).

Definition unhashable {A} : M JuliaSolver A :=
  raise (TypeError "unhashable type: 'list'").

Definition killThread (thread_id : pyid) : M JuliaSolver unit :=
  match thread_id with
  | IdList _ => unhashable
  | IdKey k =>
      ths <- gets threads ;;
      match dict_get pykey_eq_dec k ths with
      | None =>
          logData false
            (Some ("[WARNING] Thread with id '" ++ str_of_key k
                   ++ "', does not exists")) true (key_str k)
      | Some _ =>
          match dict_pop pykey_eq_dec k ths with
          | None => raise (KeyError k)
          | Some (t, ths') =>
              set_threads ths' ;;
              record (Terminate t) ;;
              logData false
                (Some ("[ACTION] Thread<" ++ str_of_key k ++ "> Terminated"))
                true (key_str k)
          end
      end
  end.

Definition handleThreadFinished (pid : string) : M JuliaSolver unit :=
  logData false
    (Some ("thread with pid: <" ++ pid ++ "> finished successfully"))
    true (Some pid) ;;
  ths <- gets threads ;;
  if negb (dict_mem pykey_eq_dec (KStr pid) ths) then ret tt
  else
    match dict_pop pykey_eq_dec (KStr pid) ths with
    | None => raise (KeyError (KStr pid))
    | Some (t, ths') => set_threads ths' ;; record (DeleteLater t)
    end.

Definition handleThreadStarted (pid : string) : M JuliaSolver unit :=
  logData false (Some ("thread with pid: <" ++ pid ++ "> started")) true
    (Some pid).

Definition handleThreadError (errorTuple : string * exn)
  : M JuliaSolver unit :=
  let '(pid, e) := errorTuple in
  ths <- gets threads ;;
  match dict_pop pykey_eq_dec (KStr pid) ths with
  | None => raise (KeyError (KStr pid))
  | Some (t, ths') =>
      set_threads ths' ;;
      record (DeleteLater t) ;;
      logData true
        (Some ("[ERROR] Thread with id: '" ++ pid ++ "' failed. Error below"))
        true (Some pid) ;;
      raise (ExceptionOf e)
  end.

Definition handleThreadOutput (opts : string * string) : M JuliaSolver unit :=
  let '(pid, msg) := opts in
  logData false (Some msg) true (Some pid).

(** The slot each signal of a worker is connected to in [__spawnThread]. *)
Definition dispatch (ev : wevent) : M JuliaSolver unit :=
  match ev with
  | EmitStderr id e => slot (handleThreadError (id, e))
  | EmitThreadFinished id => slot (handleThreadFinished id)
  | EmitThreadStarted id => slot (handleThreadStarted id)
  | Print _ _ | Save _ _ => ret tt
  end.

(** [thread.run()] called by the supervisor: the worker runs to its end in
    the caller, and each emission reaches its slot at once. *)
Fixpoint deliver (evs : list wevent) : M JuliaSolver unit :=
  match evs with
  | [] => ret tt
  | ev :: evs' => record (Worker ev) ;; dispatch ev ;; deliver evs'
  end.

Definition spawnThread (thread_id : pyid) (args : string * string)
    (env : Env) : M JuliaSolver unit :=
  logData false (Some "[ACTION] Spawning Thread") true None ;;
  match thread_id with
  | IdList _ => unhashable
  | IdKey k =>
      ths <- gets threads ;;
      (if dict_mem pykey_eq_dec k ths then
         logData false
           (Some ("[WARNING] Thread with id '" ++ str_of_key k
                  ++ "' already exist. Original thread will be killed and overridden"))
           true (key_str k) ;;
         killThread thread_id
       else ret tt) ;;
      o <- fresh ;;
      let thread := JuliaWorkerThread_init o args k env in
      record (Create thread) ;;
      ths <- gets threads ;;
      set_threads (dict_update pykey_eq_dec ths k thread) ;;
      deliver (run env thread)
  end.

(** The operations on the registry, and a run of a sequence of them; the
    state reached is kept whether or not the operation raised. *)
Inductive op : Type :=
| OpStart (thread_id : pyid) (args : string * string) (env : Env)
| OpKill (thread_id : pyid)
| OpFinished (pid : string)
| OpError (pid : string) (e : exn).

Definition step (s : JuliaSolver) (o : op) : JuliaSolver :=
  fst (match o with
       | OpStart thread_id args env => spawnThread thread_id args env
       | OpKill thread_id => killThread thread_id
       | OpFinished pid => handleThreadFinished pid
       | OpError pid e => handleThreadError (pid, e)
       end s).

Definition run_ops (os : list op) (s : JuliaSolver) : JuliaSolver :=
  fold_left step os s.
End Jobs.
Arguments saved : clear implicits.
Arguments wevent : clear implicits.
Arguments effect : clear implicits.
Arguments Env : clear implicits.
Arguments JuliaSolver : clear implicits.
Arguments op : clear implicits.

(** ** The wire format as the specification words it *)

(** The wire form of a value as the specification words it, "the literal
    string, or a comma-joined list": [__logData] itself only puts scalar
    fields on the wire. *)
Definition wire_value_spec (v : value) : string :=
  match v with
  | VStr s => s
  | VList l => join "," l
  end.

(** Encode as the specification words it: one [appendKeyValuePair] of the
    source per field, in order. *)
Definition Encode_spec (fields : list (string * value)) : string :=
  fold_left
    (fun msg kv => appendKeyValuePair msg (fst kv) (Some (wire_value_spec (snd kv))))
    fields "".

(** The number of occurrences of a character. *)
Fixpoint count (sep : ascii) (s : string) : nat :=
  match s with
  | EmptyString => 0
  | String c s' => (if Ascii.eqb c sep then 1 else 0) + count sep s'
  end.

(** The text before, and after, the first occurrence of a character. *)
Fixpoint before (sep : ascii) (s : string) : string :=
  match s with
  | EmptyString => EmptyString
  | String c s' => if Ascii.eqb c sep then EmptyString else String c (before sep s')
  end.

Fixpoint after (sep : ascii) (s : string) : string :=
  match s with
  | EmptyString => EmptyString
  | String c s' => if Ascii.eqb c sep then s' else after sep s'
  end.

(** The segments of a line that the decoder looks at: trimmed, non-empty. *)
Definition segments (data : string) : list string :=
  filter (fun p => negb (String.length p =? 0)%nat) (map strip (split ";" data)).

(** The value a wire text stands for. *)
Definition read_value (v : string) : value :=
  if contains "," v then VList (split "," v) else VStr v.

(** The entry a segment with one ["="] stands for. *)
Definition entry (p : string) : string * value :=
  (before "=" p, read_value (after "=" p)).

(** What the specification says of a segment: split on the first ["="]. *)
Definition entry_spec (p : string) : string * value := entry p.

(** [dict(l)]: the dictionary built from a list of entries, later entries
    overwriting earlier ones. *)
Definition dict_from {K V} (eq_dec : forall a b : K, {a = b} + {a <> b})
    (res : dict K V) (l : list (K * V)) : dict K V :=
  fold_left (fun d kv => dict_update eq_dec d (fst kv) (snd kv)) l res.

(** The reserved characters of the wire format. *)
Definition reserved_free (s : string) : bool :=
  negb (contains ";" s) && negb (contains "=" s) && negb (contains "," s).

Definition nonempty (s : string) : bool := negb (String.length s =? 0)%nat.

Definition starts_with_space (s : string) : bool :=
  match s with
  | EmptyString => false
  | String c _ => isspace c
  end.

Fixpoint ends_with_space (s : string) : bool :=
  match s with
  | EmptyString => false
  | String c EmptyString => isspace c
  | String _ s' => ends_with_space s'
  end.

(** The files a worker saved, in order. *)
Fixpoint saves {obj : Type} (evs : list (wevent obj))
  : list (string * option (saved obj)) :=
  match evs with
  | [] => []
  | Save file data :: evs' => (file, data) :: saves evs'
  | _ :: evs' => saves evs'
  end.

(** The job id an event of a worker carries, if it carries one. *)
Definition event_id {obj : Type} (ev : wevent obj) : option string :=
  match ev with
  | Print id _ | EmitStderr id _ | EmitThreadFinished id | EmitThreadStarted id =>
      Some id
  | Save _ _ => None
  end.

(** The status lines the supervisor has sent so far. *)
Definition sent_lines {obj : Type} (s : JuliaSolver obj) : list string :=
  written (communicator s).

(** ** What the slots of the sockets do *)

(** The handshake line of an endpoint, with the newline [send] adds. *)
Definition handshake (which : endpoint) : string :=
  match which with
  | ReadEnd => "read socket connected"
  | WriteEnd => "write socket connected"
  end ++ nl.

(** What one run of the slot of a signal writes, and what it emits. *)
Definition slot_writes (which : endpoint) (sg : socket_signal) : list string :=
  match sg with
  | connected => [handshake which]
  | errorOccurred _ => []
  end.

Definition slot_events (which : endpoint) (sg : socket_signal)
  : list (signal * list pyobj) :=
  match sg with
  | connected => [(sig_sent, [PyStr (handshake which)])]
  | errorOccurred e => [(sig_stderr, [PySocketError e])]
  end.

(** [n] copies of a list, one after the other. *)
Fixpoint copies {A : Type} (n : nat) (l : list A) : list A :=
  match n with
  | 0 => []
  | S n' => (l ++ copies n' l)%list
  end.

(** What the signals of an endpoint write and emit when every slot is
    connected [n] times. *)
Definition fired_writes (n : nat) (which : endpoint) (sgs : list socket_signal)
  : list string :=
  flat_map (fun sg => copies n (slot_writes which sg)) sgs.

Definition fired_events (n : nat) (which : endpoint) (sgs : list socket_signal)
  : list (signal * list pyobj) :=
  flat_map (fun sg => copies n (slot_events which sg)) sgs.

(** The communicator after more writes and more events. *)
Definition after_io (c : Communicator) (w : list string)
    (e : list (signal * list pyobj)) : Communicator :=
  {| serverName := serverName c; readSocket := readSocket c;
     writeSocket := writeSocket c; isActive := isActive c;
     written := (written c ++ w)%list; emitted := (emitted c ++ e)%list;
     connections := connections c |}.

(** What [prime] writes and emits: the read socket first. *)
Definition primed_writes (n : nat) (c : Communicator) : list string :=
  (fired_writes n ReadEnd (connectToServer (readSocket c)) ++
   fired_writes n WriteEnd (connectToServer (writeSocket c)))%list.

Definition primed_events (n : nat) (c : Communicator)
  : list (signal * list pyobj) :=
  (fired_events n ReadEnd (connectToServer (readSocket c)) ++
   fired_events n WriteEnd (connectToServer (writeSocket c)))%list.

(** What Qt gives for a local socket: only a connected socket is valid. *)
Definition valid_only_if_connected (s : QLocalSocket) : Prop :=
  isValid s = true -> waitForConnected s = true.

(** The event that reports a failed start, for some text of the failure. *)
Definition startup_failure (ev : signal * list pyobj) : Prop :=
  exists message,
    ev = (sig_stderr,
          [PyStr ("Failed to start connector, Sockets not properly primed."
                  ++ nl ++ message)]).

(** ** Concrete endpoints *)

(** An endpoint that connects, reports its disconnection and passes the
    validity probe. *)
Definition good_socket : QLocalSocket :=
  {| connectToServer := [connected];
     waitForConnected := true; waitForDisconnected := true; isValid := true;
     error := "LocalSocketError.UnknownSocketError";
     errorString := "Unknown error" |}.

(** An endpoint whose server does not exist: the request fails at once
    with an error, the wait gives up, and the socket is not valid. *)
Definition refused_socket : QLocalSocket :=
  {| connectToServer := [errorOccurred "LocalSocketError.ServerNotFoundError"];
     waitForConnected := false; waitForDisconnected := false; isValid := false;
     error := "LocalSocketError.ServerNotFoundError";
     errorString := "QLocalSocket::connectToServer: Invalid name" |}.

(** A write endpoint that does not confirm its disconnection. *)
Definition stuck_socket : QLocalSocket :=
  {| connectToServer := [connected];
     waitForConnected := true; waitForDisconnected := false; isValid := true;
     error := "LocalSocketError.SocketTimeoutError";
     errorString := "QLocalSocket::waitForDisconnected: Socket operation timed out" |}.

(** ** Predicates on segments and fields *)

(** A segment that is not a key and a value: not exactly one ["="]. *)
Definition malformed (p : string) : bool := negb (count "=" p =? 1)%nat.

(** The text [Encode_spec] produces, field by field. *)
Fixpoint wire (fields : list (string * value)) : string :=
  match fields with
  | [] => ""
  | kv :: rest => fst kv ++ "=" ++ wire_value_spec (snd kv) ++ ";" ++ wire rest
  end.

(** The segment of one field. *)
Definition body (kv : string * value) : string :=
  fst kv ++ "=" ++ wire_value_spec (snd kv).

(** Non-empty and free of the reserved characters. *)
Definition clean (s : string) : bool := nonempty s && reserved_free s.

(** A field whose key and value, and every element of a list value, are
    non-empty and free of the reserved characters. *)
Definition claim_field (kv : string * value) : bool :=
  clean (fst kv) &&
  match snd kv with
  | VStr s => clean s
  | VList l => forallb clean l
  end.

(** What the round trip needs besides: the key does not begin with
    whitespace, the value does not end with whitespace, and a list value has
    at least two elements. *)
Definition edge_field (kv : string * value) : bool :=
  negb (starts_with_space (fst kv)) &&
  match snd kv with
  | VStr s => negb (ends_with_space s)
  | VList l => (2 <=? List.length l)%nat && negb (ends_with_space (last l ""))
  end.

(** What the round trip needs and no more. *)
Definition wire_safe (kv : string * value) : bool :=
  negb (contains ";" (fst kv)) && negb (contains "=" (fst kv)) &&
  negb (starts_with_space (fst kv)) &&
  match snd kv with
  | VStr s => reserved_free s && negb (ends_with_space s)
  | VList l =>
      (2 <=? List.length l)%nat && forallb reserved_free l &&
      negb (ends_with_space (last l ""))
  end.

(** A communicator to decode with. *)
Definition idle_communicator : Communicator :=
  Communicator_init None good_socket good_socket.

(** ** Concrete messages and jobs *)

Definition message_leading_space : dict string value := [(" a", VStr "b")].
Definition message_singleton_list : dict string value := [("k", VList ["x"])].
Definition message_ab : dict string value :=
  [("a", VStr "1"); ("b", VList ["2"; "3"; "4"])].

(** Natural numbers for the opaque values. *)
#[local] Instance nat_external : External nat :=
  {| fsub := Nat.sub; fstr := fun _ => "2.0" |}.

(** A run in which both paths exist and the solver returns ten results. *)
Definition env_ok : Env nat :=
  {| path_exists := fun _ => true;
     solve := fun _ => Ok [10; 11; 12; 13; 14; 15; 16; 17; 18; 19];
     save := fun _ _ => Ok tt;
     time_st := 5;
     time_et := 7;
     uuid4 := "0b5f2c1e-7d0a-4c55-9d7e-3a8f0e6b1c42" |}.

Definition worker_job1 : JuliaWorkerThread :=
  JuliaWorkerThread_init 0 ("/tmp/in", "/tmp/out") (KStr "job1") env_ok.

(** The names of the arrays a worker saves. *)
Definition array_names : list string :=
  [ "c_save"; "t_save"; "w_save"; "v_save"; "regime_save"; "PSI_save";
    "p_save"; "mesh_config" ].

(** An event of the worker [id] that reaches no slot. *)
Definition quiet {obj : Type} (id : string) (ev : wevent obj) : Prop :=
  match ev with
  | Print id' _ => id' = id
  | Save _ _ => True
  | _ => False
  end.

(** A computation of a worker that only adds events with a property. *)
Definition keeps {obj A : Type} (P : wevent obj -> Prop)
    (m : M (list (wevent obj)) A) : Prop :=
  forall evs, Forall P evs -> Forall P (fst (m evs)).

Definition events_job1 : list (wevent nat) :=
  fst (run_body env_ok worker_job1 []).

(** ** States of the supervisor *)

(** The status envelope: the four fields, in order, and the newline that
    [send] adds. *)
Definition status_line (failed : bool) (text : option string) (log : bool)
    (thread_id : option string) : string :=
  "failed=" ++ lower_bool failed
  ++ ";text=" ++ match text with None => "none" | Some t => t end
  ++ ";log=" ++ lower_bool log
  ++ ";pid=" ++ match thread_id with None => "none" | Some p => p end
  ++ ";" ++ nl.

Section States.
Context {obj : Type}.
Implicit Type s : JuliaSolver obj.

(** The state after one more line has been sent. *)
Definition with_line s (line : string) : JuliaSolver obj :=
  {| threads := threads s;
     communicator :=
       {| serverName := serverName (communicator s);
          readSocket := readSocket (communicator s);
          writeSocket := writeSocket (communicator s);
          isActive := isActive (communicator s);
          written := written (communicator s) ++ [line];
          emitted := emitted (communicator s) ++ [(sig_sent, [PyStr line])];
          connections := connections (communicator s) |};
     next_oid := next_oid s; trace := trace s |}.

Definition with_trace s (tr : list (effect obj)) : JuliaSolver obj :=
  {| threads := threads s; communicator := communicator s;
     next_oid := next_oid s; trace := trace s ++ tr |}.

Definition with_threads s (ths : dict pykey JuliaWorkerThread)
  : JuliaSolver obj :=
  {| threads := ths; communicator := communicator s;
     next_oid := next_oid s; trace := trace s |}.
End States.

(** The invariant of the registry: one entry per id, and every registered
    worker is an object that was created before. *)
Definition registry_ok {obj : Type} (s : JuliaSolver obj) : Prop :=
  dict_wf (threads s) /\
  Forall (fun kw => oid (snd kw) < next_oid s) (threads s).

(** A supervisor just created, a start command for the job ["job1"], and
    the supervisor after it. *)
Definition solver0 : JuliaSolver nat :=
  JuliaSolver_init None good_socket good_socket "[]".

Definition start_job1 : op nat :=
  OpStart (IdKey (KStr "job1")) ("/tmp/in", "/tmp/out") env_ok.

Definition solver1 : JuliaSolver nat := run_ops [start_job1] solver0.

(** ** The command interpreter: __handleListenerInput *)

Definition tab : string := String (ascii_of_nat 9) "".

(** The text Python prints for a message, and for the items of a list
    between its brackets, is left to the environment. *)
Class Printing : Type := {
  repr_message : dict string value -> string;     (* the text of {data} *)
  repr_items : list string -> string              (* 'a', 'b' in ['a', 'b'] *)
}.

(** [str(l)] of a list. *)
Definition str_of_list `{Printing} (l : list string) : string :=
  "[" ++ repr_items l ++ "]".

(** [str(data.get(key))] *)
Definition str_of_field `{Printing} (v : option value) : string :=
  match v with
  | None => "None"
  | Some (VStr s) => s
  | Some (VList l) => str_of_list l
  end.

(** [args[i]], for what [data.get("args")] can be: on a string it is the
    character at [i]. *)
Definition subscript (args : option value) (i : nat) : result string :=
  match args with
  | None => Raise (TypeError "'NoneType' object is not subscriptable")
  | Some (VStr s) =>
      match String.get i s with
      | Some ch => Ok (String ch "")
      | None => Raise (IndexError "string index out of range")
      end
  | Some (VList l) =>
      match nth_error l i with
      | Some x => Ok x
      | None => Raise (IndexError "list index out of range")
      end
  end.

(** [data.get("pid")] as a job id. *)
Definition id_of_field (v : option value) : pyid :=
  match v with
  | None => IdKey KNone
  | Some (VStr s) => IdKey (KStr s)
  | Some (VList l) => IdList l
  end.

Section Commands.
Context {obj : Type} `{External obj} `{Printing}.

Definition handleListenerInput (data : dict string value) (env : Env obj)
  : M (JuliaSolver obj) unit :=
  logData false
    (Some ("[ACTION]: Data Received" ++ nl ++ tab ++ " " ++ repr_message data
           ++ ", " ++ nl ++ tab ++ "stimulating run" ++ nl)) true None ;;
  let actions := ["kill"; "start"] in
  let action := str_of_field (dict_get string_dec "action" data) in
  if negb (existsb (String.eqb action) actions) then
    raise (Exception ("[ERROR] Invalid actions." ++ nl ++ tab
                      ++ "Expected value in ['kill', 'start'] got " ++ action))
  else
    (if String.eqb action "kill"
     then killThread (id_of_field (dict_get string_dec "pid" data))
     else ret tt) ;;
    (if String.eqb action "start" then
       let args := dict_get string_dec "args" data in
       a0 <- of_result (subscript args 0) ;;
       (if negb (path_exists env a0)
        then raise (Exception ("Path " ++ a0 ++ " does not exists"))
        else ret tt) ;;
       a1 <- of_result (subscript args 1) ;;
       (if negb (path_exists env a1)
        then raise (Exception ("Path " ++ a1 ++ " does not exists"))
        else ret tt) ;;
       spawnThread (id_of_field (dict_get string_dec "pid" data)) (a0, a1) env
     else ret tt).

(** [__handleCommunicatorDataReceived], the slot of [received]. *)
Definition handleCommunicatorDataReceived (data : dict string value)
    (env : Env obj) : M (JuliaSolver obj) unit :=
  handleListenerInput data env.

(** [__handleCommunicatorOutput], the slot of the communicator's [stdout]. *)
Definition handleCommunicatorOutput (msg : string) : M (JuliaSolver obj) unit :=
  logData false (Some msg) true None.
End Commands.

(** The line that announces a received message. *)
Definition received_line `{Printing} (data : dict string value) : string :=
  status_line false
    (Some ("[ACTION]: Data Received" ++ nl ++ tab ++ " " ++ repr_message data
           ++ ", " ++ nl ++ tab ++ "stimulating run" ++ nl)) true None.

(** A printing for the concrete runs: the items joined, without quotes. *)
#[local] Instance plain_printing : Printing :=
  {| repr_message := fun d => "{" ++ join ", " (map fst d) ++ "}";
     repr_items := fun l => join ", " l |}.

(** Every character of a string satisfies a test. *)
Fixpoint all_chars (p : ascii -> bool) (s : string) : bool :=
  match s with
  | EmptyString => true
  | String ch s' => p ch && all_chars p s'
  end.

(** A character of a line that holds no field: a blank or the separator. *)
Definition blank_or_semicolon (ch : ascii) : bool :=
  isspace ch || Ascii.eqb ch ";".

(** Runs that fail: the input directory is missing; the solver raises; the
    solver returns too few results. *)
Definition env_no_input : Env nat :=
  {| path_exists := fun p => String.eqb p "/tmp/out";
     solve := fun _ => Ok [10; 11; 12; 13; 14; 15; 16; 17; 18; 19];
     save := fun _ _ => Ok tt;
     time_st := 5; time_et := 7;
     uuid4 := "0b5f2c1e-7d0a-4c55-9d7e-3a8f0e6b1c42" |}.

Definition env_solver_fails : Env nat :=
  {| path_exists := fun _ => true;
     solve := fun _ => Raise (SolverError "singular matrix");
     save := fun _ _ => Ok tt;
     time_st := 5; time_et := 7;
     uuid4 := "0b5f2c1e-7d0a-4c55-9d7e-3a8f0e6b1c42" |}.

Definition env_short_result : Env nat :=
  {| path_exists := fun _ => true;
     solve := fun _ => Ok [10; 11; 12];
     save := fun _ _ => Ok tt;
     time_st := 5; time_et := 7;
     uuid4 := "0b5f2c1e-7d0a-4c55-9d7e-3a8f0e6b1c42" |}.

(** ** States of a start command *)

Section StartStates.
Context {obj : Type}.

(** The state after several lines have been sent, in order. *)
Definition with_lines (s : JuliaSolver obj) (lines : list string)
  : JuliaSolver obj :=
  fold_left with_line lines s.

(** The lines [__spawnThread] sends before it creates the worker. *)
Definition spawn_lines (k : pykey) (registered : bool) : list string :=
  status_line false (Some "[ACTION] Spawning Thread") true None
  :: if registered then
       [ status_line false
           (Some ("[WARNING] Thread with id '" ++ str_of_key k
                  ++ "' already exist. Original thread will be killed and overridden"))
           true (key_str k);
         status_line false
           (Some ("[ACTION] Thread<" ++ str_of_key k ++ "> Terminated"))
           true (key_str k) ]
     else [].

(** The state in which [__spawnThread] launches the worker: the incumbent,
    if any, is gone, and the new worker is registered. *)
Definition registered_state (k : pykey) (args : string * string)
    (env : Env obj) (s : JuliaSolver obj) : JuliaSolver obj :=
  let new := JuliaWorkerThread_init (next_oid s) args k env in
  {| threads :=
       dict_update pykey_eq_dec (dict_remove pykey_eq_dec k (threads s)) k new;
     communicator :=
       communicator
         (with_lines s (spawn_lines k (dict_mem pykey_eq_dec k (threads s))));
     next_oid := S (next_oid s);
     trace :=
       (trace s ++
        match dict_get pykey_eq_dec k (threads s) with
        | Some old => [Terminate old]
        | None => []
        end ++ [Create new])%list |}.

(** The line the supervisor sends when a worker has failed. *)
Definition failure_line (id : string) : string :=
  status_line true
    (Some ("[ERROR] Thread with id: '" ++ id ++ "' failed. Error below"))
    true (Some id).
End StartStates.

(** A supervisor in which the start of ["job1"] meets a failing solver. *)
Definition start_job1_failing : op nat :=
  OpStart (IdKey (KStr "job1")) ("/tmp/in", "/tmp/out") env_solver_fails.

(** ** Coherence of the registry *)

(** Every registered worker is an object created before, a worker under a
    string id carries this id, and no object is registered twice. *)
Definition registry_coherent {obj : Type} (s : JuliaSolver obj) : Prop :=
  Forall (fun kw => oid (snd kw) < next_oid s /\
                    forall p, fst kw = KStr p -> pid (snd kw) = p)
    (threads s) /\
  NoDup (map (fun kw => oid (snd kw)) (threads s)).
(** * Facts *)

(** ** Communicator.start and Communicator.stop *)

Lemma after_io_nil (c : Communicator) : after_io c [] [] = c.
Proof. destruct c; unfold after_io; cbn. now rewrite !app_nil_r. Qed.

Lemma after_io_after_io (c : Communicator) w1 e1 w2 e2 :
  after_io (after_io c w1 e1) w2 e2 = after_io c (w1 ++ w2)%list (e1 ++ e2)%list.
Proof. unfold after_io; cbn. now rewrite !app_assoc. Qed.

(** One run of the slot of a signal. *)
Lemma wired_eq (which : endpoint) (sg : socket_signal) (c : Communicator) :
  wired which sg c =
    (after_io c (slot_writes which sg) (slot_events which sg), Ok tt).
Proof.
  destruct sg as [|e]; [destruct which|]; destruct c;
    unfold wired, handleSocketErrors, emit, modify, after_io; cbn;
    rewrite ?app_nil_r; reflexivity.
Qed.

Lemma times_wired (n : nat) (which : endpoint) (sg : socket_signal)
    (c : Communicator) :
  times n (wired which sg) c =
    (after_io c (copies n (slot_writes which sg))
       (copies n (slot_events which sg)), Ok tt).
Proof.
  revert c. induction n as [|n IH]; intros c.
  - cbn. now rewrite after_io_nil.
  - cbn [times copies]. unfold bind, invoke. rewrite wired_eq. cbn [fst].
    rewrite IH, after_io_after_io. reflexivity.
Qed.

(** The signals of an endpoint, each run through its slot. *)
Lemma fire_eq (which : endpoint) (sgs : list socket_signal) (c : Communicator) :
  fire which sgs c =
    (after_io c (fired_writes (connections c) which sgs)
       (fired_events (connections c) which sgs), Ok tt).
Proof.
  revert c. induction sgs as [|sg sgs IH]; intros c.
  - cbn. now rewrite after_io_nil.
  - cbn [fire fired_writes fired_events flat_map]. unfold bind, gets.
    rewrite times_wired, IH, after_io_after_io. reflexivity.
Qed.

Lemma prime_eq (c : Communicator) :
  prime c =
    (after_io c (primed_writes (connections c) c)
       (primed_events (connections c) c), Ok tt).
Proof.
  unfold prime, bind, gets. rewrite !fire_eq, after_io_after_io.
  reflexivity.
Qed.

(** [start] never raises. It wires the slots once more, lets the sockets
    fire into them, reports a failed connection wait, and leaves the
    communicator active exactly when the validity probe passes. *)
Lemma start_outcome (c : Communicator) :
  let n := S (connections c) in
  let connected :=
    waitForConnected (writeSocket c) && waitForConnected (readSocket c) in
  let valid := isValid (readSocket c) && isValid (writeSocket c) in
  exists failure,
    (if connected then failure = []
     else exists ev, startup_failure ev /\ failure = [ev]) /\
    start c =
      ({| serverName := serverName c; readSocket := readSocket c;
          writeSocket := writeSocket c; isActive := valid;
          written := (written c ++ primed_writes n c)%list;
          emitted :=
            (emitted c ++ primed_events n c ++ failure ++
             (if valid
              then [(sig_stdout, [PyStr "Communicator Primed"]);
                    (sig_started, [])]
              else [(sig_stderr, [PyStr "Sockets Failed Validity Test"])]))%list;
          connections := n |}, Ok tt).
Proof.
  cbv zeta. unfold start, bind at 1. unfold configure, modify.
  unfold bind at 1. rewrite prime_eq.
  destruct c as [nm [rs rc rd rv re res] [ws wc wd wv we wes] a w em k].
  unfold primed_writes, primed_events, after_io.
  cbn [connections readSocket writeSocket connectToServer written emitted
       serverName isActive waitForConnected isValid].
  generalize (fired_writes (S k) ReadEnd rs ++ fired_writes (S k) WriteEnd ws)%list.
  generalize (fired_events (S k) ReadEnd rs ++ fired_events (S k) WriteEnd ws)%list.
  intros pe pw.
  destruct wc, rc, rv, wv; cbn; unfold modify; cbn;
    eexists; (split; [first [reflexivity
                            | eexists; split; [eexists; reflexivity | reflexivity]]|]);
    rewrite <- ?app_assoc; reflexivity.
Qed.

(** The slots of the sockets emit forwarded errors and handshake lines,
    nothing else. *)
Lemma primed_events_kinds (n : nat) (c : Communicator) :
  Forall (fun ev => fst ev = sig_stderr /\ (exists e, snd ev = [PySocketError e])
                    \/ fst ev = sig_sent)
    (primed_events n c).
Proof.
  assert (Hc : forall which sg m,
    Forall (fun ev => fst ev = sig_stderr /\ (exists e, snd ev = [PySocketError e])
                      \/ fst ev = sig_sent)
      (copies m (slot_events which sg))).
  { intros which sg m. induction m as [|m IH]; [constructor|].
    cbn [copies]. apply Forall_app. split; [|exact IH].
    destruct sg as [|e]; cbn; (apply Forall_cons; [|constructor]).
    - right. reflexivity.
    - left. split; [reflexivity | eexists; reflexivity]. }
  assert (Hf : forall which sgs,
    Forall (fun ev => fst ev = sig_stderr /\ (exists e, snd ev = [PySocketError e])
                      \/ fst ev = sig_sent)
      (fired_events n which sgs)).
  { intros which sgs. induction sgs as [|sg sgs IH]; [constructor|].
    cbn [fired_events flat_map]. apply Forall_app. split; [apply Hc | exact IH]. }
  unfold primed_events. apply Forall_app. split; apply Hf.
Qed.

(** C1. For sockets that are valid only when connected, as Qt's are:
    [start] returns normally; if the connection wait of either endpoint
    fails, it emits the startup failure event, leaves the communicator
    inactive and emits no [started]; the communicator ends active, or
    [started] is emitted, only if both connection waits and both validity
    probes succeeded, and then both happen. *)
Theorem start_active_only_when_connected (c : Communicator) :
  valid_only_if_connected (readSocket c) ->
  valid_only_if_connected (writeSocket c) ->
  exists c' new,
    start c = (c', Ok tt) /\
    emitted c' = (emitted c ++ new)%list /\
    (waitForConnected (readSocket c) = false \/
     waitForConnected (writeSocket c) = false ->
     Exists startup_failure new /\
     isActive c' = false /\
     forall args, ~ In (sig_started, args) new) /\
    (isActive c' = true \/ (exists args, In (sig_started, args) new) ->
     waitForConnected (readSocket c) = true /\
     waitForConnected (writeSocket c) = true /\
     isValid (readSocket c) = true /\
     isValid (writeSocket c) = true) /\
    (waitForConnected (readSocket c) = true ->
     waitForConnected (writeSocket c) = true ->
     isValid (readSocket c) = true ->
     isValid (writeSocket c) = true ->
     isActive c' = true /\ In (sig_started, []) new).
Proof.
  intros Hr Hw.
  destruct (start_outcome c) as (failure & Hfail & Hs). cbv zeta in *.
  pose proof (primed_events_kinds (S (connections c)) c) as Hk.
  set (pe := primed_events (S (connections c)) c) in *.
  set (valid := isValid (readSocket c) && isValid (writeSocket c)) in *.
  set (final := if valid
                then [(sig_stdout, [PyStr "Communicator Primed"]);
                      (sig_started, [])]
                else [(sig_stderr, [PyStr "Sockets Failed Validity Test"])]) in *.
  assert (Hpe : forall args, ~ In (sig_started, args) pe).
  { intros args Hin. rewrite Forall_forall in Hk.
    destruct (Hk _ Hin) as [[E _]|E]; discriminate E. }
  assert (Hfl : forall args, ~ In (sig_started, args) failure).
  { intros args Hin.
    destruct (waitForConnected (writeSocket c) && waitForConnected (readSocket c)).
    - subst failure. exact Hin.
    - destruct Hfail as (ev & [message ->] & ->).
      destruct Hin as [E|[]]. discriminate E. }
  assert (Hstarted : forall args,
            In (sig_started, args) (pe ++ failure ++ final)%list -> valid = true).
  { intros args Hin. apply in_app_or in Hin. destruct Hin as [Hin|Hin].
    { exfalso. exact (Hpe _ Hin). }
    apply in_app_or in Hin. destruct Hin as [Hin|Hin].
    { exfalso. exact (Hfl _ Hin). }
    subst final. destruct valid; [reflexivity|].
    destruct Hin as [E|[]]. discriminate E. }
  assert (Hvalid : valid = true ->
            waitForConnected (readSocket c) = true /\
            waitForConnected (writeSocket c) = true /\
            isValid (readSocket c) = true /\
            isValid (writeSocket c) = true).
  { intros Hv. subst valid. apply andb_prop in Hv. destruct Hv as [Hv1 Hv2].
    repeat split; auto. }
  eexists. exists (pe ++ failure ++ final)%list.
  split; [exact Hs|]. cbn [emitted isActive].
  split; [reflexivity|]. split; [|split].
  - intros Hnc.
    assert (Hv : valid = false).
    { destruct valid eqn:Ev; [|reflexivity].
      destruct (Hvalid eq_refl) as (H1 & H2 & _).
      destruct Hnc as [E|E]; congruence. }
    split; [|split].
    + apply Exists_exists.
      assert (Hc : waitForConnected (writeSocket c)
                   && waitForConnected (readSocket c) = false).
      { destruct Hnc as [E|E]; rewrite E;
          [apply andb_false_r | reflexivity]. }
      rewrite Hc in Hfail. destruct Hfail as (ev & Hev & ->).
      exists ev. split; [|exact Hev].
      apply in_or_app. right. apply in_or_app. left. left. reflexivity.
    + exact Hv.
    + intros args Hin. apply Hstarted in Hin. congruence.
  - intros [Ha|[args Hin]]; apply Hvalid; [exact Ha | exact (Hstarted _ Hin)].
  - intros H1 H2 H3 H4.
    assert (Hv : valid = true) by (subst valid; now rewrite H3, H4).
    split; [exact Hv|].
    apply in_or_app. right. apply in_or_app. right.
    subst final. rewrite Hv. right. left. reflexivity.
Qed.

Lemma start_active_only_when_connected_witness :
  let c := Communicator_init (Some "srv") refused_socket refused_socket in
  valid_only_if_connected (readSocket c) /\
  valid_only_if_connected (writeSocket c) /\
  snd (start c) = Ok tt /\
  isActive (fst (start c)) = false /\
  Exists startup_failure (emitted (fst (start c))) /\
  ~ In (sig_started, []) (emitted (fst (start c))).
Proof.
  cbv zeta.
  split; [intros Hv; exact Hv|]. split; [intros Hv; exact Hv|].
  destruct (start_active_only_when_connected
              (Communicator_init (Some "srv") refused_socket refused_socket)
              (fun Hv => Hv) (fun Hv => Hv))
    as (c' & new & Hs & Hem & Hfail & _).
  destruct (Hfail (or_introl eq_refl)) as (Hex & Hact & Hno).
  rewrite Hs. cbn [fst snd]. rewrite Hem. cbn [emitted Communicator_init app].
  repeat split; [exact Hact | exact Hex | apply Hno].
Defined.

(** [stop] when both endpoints confirm, and when one does not: the call of
    [stderr.emit] with two arguments raises and emits nothing. *)
Lemma stop_outcome (c : Communicator) :
  if waitForDisconnected (writeSocket c) && waitForDisconnected (readSocket c)
  then exists c',
         stop c = (c', Ok tt) /\ isActive c' = false /\
         emitted c' = (emitted c ++ [(sig_stdout, [PyStr "Sockets disconnected"]);
                                     (sig_stopped, [])])%list
  else stop c = (c, Raise (TypeError "wrong number of arguments in emit")).
Proof.
  destruct c as [n [rs rc rd rv re res] [ws wc wd wv we wes] a w em k]; cbn.
  destruct wd, rd; cbn; try reflexivity.
  eexists; split; [reflexivity|]; cbn; split; [reflexivity|].
  rewrite <- app_assoc; reflexivity.
Qed.

(** C7. When the write endpoint does not confirm its disconnection, [stop]
    raises a [TypeError] and emits neither [stopped] nor an error event. *)
Theorem stop_raises_on_failed_disconnection :
  let c := Communicator_init (Some "srv") good_socket stuck_socket in
  stop c = (c, Raise (TypeError "wrong number of arguments in emit")) /\
  emitted (fst (stop c)) = [].
Proof. split; reflexivity. Qed.

(** ** Decode: __parseInput *)

(** A non-string with a length is answered with a diagnostic and an empty
    message. *)
Lemma parseInput_non_string_with_len (data : pyobj) (n : nat) (c : Communicator) :
  (forall s, data <> PyStr s) -> len data = Ok n ->
  exists line,
    parseInput data c =
      (fst (emit sig_stdout [PyStr line] c), Ok []).
Proof.
  intros Hns Hlen. unfold parseInput, bind, of_result. rewrite Hlen.
  destruct (n =? 0)%nat.
  - eexists. cbn. reflexivity.
  - destruct data; try (eexists; cbn; reflexivity).
    exfalso. eapply Hns. reflexivity.
Qed.

(** C4. Decoding the integer 42 raises a [TypeError]: the length of the
    input is taken before its type is tested, and an integer has none. No
    diagnostic is emitted and no message is returned. *)
Theorem parseInput_int_raises (c : Communicator) :
  parseInput (PyInt 42) c =
    (c, Raise (TypeError "object of type 'int' has no len()")).
Proof. reflexivity. Qed.

(** *** Strings *)

Lemma append_assoc (a b c : string) : (a ++ b) ++ c = a ++ (b ++ c).
Proof. induction a as [|x a IH]; simpl; [reflexivity | now rewrite IH]. Qed.

Lemma append_empty_r (a : string) : a ++ "" = a.
Proof. induction a as [|x a IH]; simpl; [reflexivity | now rewrite IH]. Qed.

Lemma contains_append (c : ascii) (a b : string) :
  contains c (a ++ b) = contains c a || contains c b.
Proof.
  induction a as [|x a IH]; simpl; [reflexivity|].
  rewrite IH. apply orb_assoc.
Qed.

Lemma contains_count (sep : ascii) (s : string) :
  contains sep s = negb (count sep s =? 0)%nat.
Proof.
  induction s as [|c s IH]; simpl; [reflexivity|].
  destruct (Ascii.eqb c sep); simpl; [reflexivity | exact IH].
Qed.

Lemma split_length (sep : ascii) (s : string) :
  List.length (split sep s) = S (count sep s).
Proof.
  induction s as [|c s IH]; simpl; [reflexivity|].
  destruct (Ascii.eqb c sep); simpl.
  - now rewrite IH.
  - destruct (split sep s); simpl in *; [discriminate | exact IH].
Qed.

Lemma split_absent (sep : ascii) (s : string) :
  contains sep s = false -> split sep s = [s].
Proof.
  induction s as [|c s IH]; simpl; [reflexivity|].
  destruct (Ascii.eqb c sep); simpl; [discriminate|].
  intros Hs. now rewrite (IH Hs).
Qed.

Lemma split_append_sep (sep : ascii) (a b : string) :
  contains sep a = false -> split sep (a ++ String sep b) = a :: split sep b.
Proof.
  induction a as [|c a IH]; simpl.
  - intros _. now rewrite Ascii.eqb_refl.
  - destruct (Ascii.eqb c sep); simpl; [discriminate|].
    intros Ha. now rewrite (IH Ha).
Qed.

Lemma split_once (sep : ascii) (s : string) :
  count sep s = 1 -> split sep s = [before sep s; after sep s].
Proof.
  induction s as [|c s IH]; simpl; [discriminate|].
  destruct (Ascii.eqb c sep); simpl.
  - intros Hc. rewrite split_absent; [reflexivity|].
    rewrite contains_count. injection Hc as ->. reflexivity.
  - intros Hc. now rewrite (IH Hc).
Qed.

Lemma before_after (sep : ascii) (s : string) :
  contains sep s = true -> s = before sep s ++ String sep (after sep s).
Proof.
  induction s as [|c s IH]; simpl; [discriminate|].
  destruct (Ascii.eqb_spec c sep) as [->|Hne]; simpl; [reflexivity|].
  intros Hs. now rewrite <- (IH Hs).
Qed.

Lemma lstrip_id (s : string) : starts_with_space s = false -> lstrip s = s.
Proof. destruct s as [|c s]; simpl; [reflexivity | now intros ->]. Qed.

Lemma rstrip_id (s : string) : ends_with_space s = false -> rstrip s = s.
Proof.
  induction s as [|c s IH]; [reflexivity|].
  destruct s as [|d s'].
  - simpl. now intros ->.
  - intros Hs. change (ends_with_space (String d s') = false) in Hs.
    change (rstrip (String c (String d s')))
      with (match rstrip (String d s') with
            | EmptyString => if isspace c then EmptyString else String c EmptyString
            | r => String c r
            end).
    now rewrite (IH Hs).
Qed.

Lemma strip_id (s : string) :
  starts_with_space s = false -> ends_with_space s = false -> strip s = s.
Proof. intros Hl Hr. unfold strip. rewrite (lstrip_id s Hl). now apply rstrip_id. Qed.

Lemma ends_with_space_cons (c : ascii) (s : string) :
  isspace c = false -> ends_with_space (String c s) = ends_with_space s.
Proof. destruct s; simpl; [now intros -> | reflexivity]. Qed.

Lemma ends_with_space_append (a : string) (c : ascii) (b : string) :
  ends_with_space (a ++ String c b) = ends_with_space (String c b).
Proof.
  induction a as [|x a IH]; [reflexivity|].
  change (String x a ++ String c b) with (String x (a ++ String c b)).
  destruct a; simpl in *; exact IH.
Qed.

Lemma ends_with_space_join (l : list string) :
  ends_with_space (join "," l) = ends_with_space (last l "").
Proof.
  induction l as [|x l IH]; [reflexivity|].
  destruct l as [|y l]; [reflexivity|].
  change (join "," (x :: y :: l)) with (x ++ String "," (join "," (y :: l))).
  rewrite ends_with_space_append, ends_with_space_cons by reflexivity.
  exact IH.
Qed.

Lemma split_join (sep : ascii) (l : list string) :
  l <> [] -> forallb (fun x => negb (contains sep x)) l = true ->
  split sep (join (String sep "") l) = l.
Proof.
  induction l as [|x l IH]; [congruence|]. intros _ Hl.
  simpl in Hl. apply andb_true_iff in Hl as [Hx Hl].
  apply negb_true_iff in Hx.
  destruct l as [|y l].
  - simpl. now apply split_absent.
  - change (join (String sep "") (x :: y :: l))
      with (x ++ String sep (join (String sep "") (y :: l))).
    rewrite split_append_sep by exact Hx.
    f_equal. apply IH; [discriminate | exact Hl].
Qed.

Lemma contains_join (sep : ascii) (l : list string) :
  2 <= List.length l -> contains sep (join (String sep "") l) = true.
Proof.
  destruct l as [|x [|y l]]; simpl; try lia. intros _.
  rewrite contains_append. simpl. rewrite Ascii.eqb_refl.
  apply orb_true_r.
Qed.

(** *** Dictionaries *)

Section DictFacts.
Context {K V : Type}.
Variable eq_dec : forall a b : K, {a = b} + {a <> b}.
Implicit Types (d : dict K V) (k : K) (v : V).

Lemma dict_get_None k d : dict_get eq_dec k d = None <-> ~ In k (keys d).
Proof.
  induction d as [|[k' v'] d IH]; simpl; [tauto|].
  destruct (eq_dec k k') as [->|Hne]; split.
  - discriminate.
  - intros Hn. exfalso. apply Hn. now left.
  - intros Hg [He|Hi]; [congruence | now apply IH].
  - intros Hn. apply IH. intros Hi. apply Hn. now right.
Qed.

Lemma dict_get_Some_In k v d : dict_get eq_dec k d = Some v -> In k (keys d).
Proof.
  intros Hg. destruct (in_dec eq_dec k (keys d)) as [Hi|Hn]; [exact Hi|].
  apply dict_get_None in Hn. congruence.
Qed.

Lemma keys_remove_incl k k0 d :
  In k0 (keys (dict_remove eq_dec k d)) -> In k0 (keys d).
Proof.
  induction d as [|[k' v'] d IH]; simpl; [tauto|].
  destruct (eq_dec k k'); simpl; [now right | intros [He|Hi]; auto].
Qed.

Lemma dict_remove_wf k d : dict_wf d -> dict_wf (dict_remove eq_dec k d).
Proof.
  unfold dict_wf. induction d as [|[k' v'] d IH]; simpl; [trivial|].
  intros Hnd. inversion Hnd as [|? ? Hni Hd]; subst.
  destruct (eq_dec k k'); [exact Hd|]. simpl. constructor.
  - intros Hi. apply Hni. eapply keys_remove_incl. exact Hi.
  - now apply IH.
Qed.

Lemma dict_remove_get_same k d :
  dict_wf d -> dict_get eq_dec k (dict_remove eq_dec k d) = None.
Proof.
  unfold dict_wf. induction d as [|[k' v'] d IH]; simpl; [trivial|].
  intros Hnd. inversion Hnd as [|? ? Hni Hd]; subst.
  destruct (eq_dec k k') as [->|Hne].
  - now apply dict_get_None.
  - simpl. destruct (eq_dec k k'); [contradiction | now apply IH].
Qed.

Lemma dict_remove_get_other k k0 d :
  k0 <> k -> dict_get eq_dec k0 (dict_remove eq_dec k d) = dict_get eq_dec k0 d.
Proof.
  intros Hne. induction d as [|[k' v'] d IH]; simpl; [trivial|].
  destruct (eq_dec k k') as [->|Hk]; simpl.
  - destruct (eq_dec k0 k'); [contradiction | reflexivity].
  - destruct (eq_dec k0 k'); [reflexivity | exact IH].
Qed.

Lemma dict_remove_absent k d :
  dict_get eq_dec k d = None -> dict_remove eq_dec k d = d.
Proof.
  induction d as [|[k' v'] d IH]; simpl; [trivial|].
  destruct (eq_dec k k'); [discriminate|]. intros Hg. now rewrite IH.
Qed.

Lemma keys_update k v d :
  keys (dict_update eq_dec d k v) =
    if in_dec eq_dec k (keys d) then keys d else (keys d ++ [k])%list.
Proof.
  induction d as [|[k' v'] d IH]; simpl; [reflexivity|].
  destruct (eq_dec k k') as [->|Hne]; simpl.
  - destruct (eq_dec k' k'); [reflexivity | contradiction].
  - rewrite IH. destruct (eq_dec k' k) as [E|E]; [congruence|].
    destruct (in_dec eq_dec k (keys d)); reflexivity.
Qed.

Lemma dict_update_wf k v d : dict_wf d -> dict_wf (dict_update eq_dec d k v).
Proof.
  unfold dict_wf. rewrite keys_update.
  destruct (in_dec eq_dec k (keys d)) as [Hi|Hn]; [trivial|].
  intros Hd. apply NoDup_app; [exact Hd | repeat constructor; simpl; tauto |].
  intros x Hx [<-|[]]. contradiction.
Qed.

Lemma dict_update_get_same k v d :
  dict_get eq_dec k (dict_update eq_dec d k v) = Some v.
Proof.
  induction d as [|[k' v'] d IH]; simpl.
  - destruct (eq_dec k k); [reflexivity | contradiction].
  - destruct (eq_dec k k') as [->|Hne] eqn:E; simpl; rewrite E; [reflexivity | exact IH].
Qed.

Lemma dict_update_get_other k k0 v d :
  k0 <> k -> dict_get eq_dec k0 (dict_update eq_dec d k v) = dict_get eq_dec k0 d.
Proof.
  intros Hne. induction d as [|[k' v'] d IH]; simpl.
  - destruct (eq_dec k0 k); [contradiction | reflexivity].
  - destruct (eq_dec k k') as [->|Hk]; simpl.
    + destruct (eq_dec k0 k'); [contradiction | reflexivity].
    + destruct (eq_dec k0 k'); [reflexivity | exact IH].
Qed.

Lemma dict_update_fresh k v d :
  ~ In k (keys d) -> dict_update eq_dec d k v = (d ++ [(k, v)])%list.
Proof.
  induction d as [|[k' v'] d IH]; simpl; [reflexivity|].
  intros Hn. destruct (eq_dec k k') as [->|Hne]; [tauto|].
  rewrite IH; [reflexivity | tauto].
Qed.

Lemma dict_from_fresh (l : list (K * V)) d :
  NoDup (keys d ++ keys l) -> dict_from eq_dec d l = (d ++ l)%list.
Proof.
  revert d. induction l as [|[k v] l IH]; intros d Hnd; simpl.
  - now rewrite app_nil_r.
  - unfold dict_from in *. simpl.
    assert (Hk : ~ In k (keys d)).
    { simpl in Hnd. apply NoDup_remove_2 in Hnd.
      intros Hi. apply Hnd. apply in_or_app. now left. }
    rewrite (dict_update_fresh k v d Hk).
    rewrite IH.
    + now rewrite <- app_assoc.
    + unfold keys in *. rewrite map_app. simpl. rewrite <- app_assoc. exact Hnd.
Qed.
End DictFacts.

(** *** The loop over the segments *)

Lemma parse_pairs_spec (kvp pairs : list string) (res : dict string value) :
  let segs :=
    filter (fun p => negb (String.length p =? 0)%nat) (map strip pairs) in
  parse_pairs kvp pairs res =
    match find malformed segs with
    | None => Ok (dict_from string_dec res (map entry segs))
    | Some bad =>
        if (count "=" bad =? 0)%nat then Raise (PoorlyFormed bad kvp)
        else Raise (ValueError "too many values to unpack (expected 2)")
    end.
Proof.
  cbv zeta. revert res. induction pairs as [|raw rest IH]; intros res.
  - reflexivity.
  - cbn [parse_pairs map filter].
    destruct (String.length (strip raw) =? 0)%nat eqn:Hlen; cbn [negb].
    + apply IH.
    + cbn [find]. unfold malformed at 1.
      rewrite contains_count.
      destruct (count "=" (strip raw)) as [|[|n]] eqn:Hc; cbn; rewrite ?Hc; cbn.
      * reflexivity.
      * rewrite (split_once _ _ Hc). rewrite IH. reflexivity.
      * pose proof (split_length "=" (strip raw)) as Hl. rewrite Hc in Hl.
        destruct (split "=" (strip raw)) as [|a [|b [|x l]]]; cbn in Hl;
          try discriminate; reflexivity.
Qed.

(** C3 as stated fails on a segment with two ["="]: the decoder raises
    where the claim has it decode to the key ["a"] and the value ["b=c"]. *)
Lemma parseInput_two_equals_raises :
  entry_spec "a=b=c" = ("a", VStr "b=c") /\
  parseInput (PyStr "a=b=c") idle_communicator =
    (idle_communicator,
     Raise (ValueError "too many values to unpack (expected 2)")) /\
  snd (parseInput (PyStr "a=b=c") idle_communicator) <> Ok [entry_spec "a=b=c"].
Proof. repeat split. discriminate. Qed.

(** C3, amended. For every non-empty input line, the decoder splits the
    line on [";"], trims the segments and discards the empty ones, and splits
    each remaining segment on every ["="], in order: up to the first segment
    that does not hold exactly one ["="], each segment gives the entry of the
    text before and the text after its ["="]; a first such segment with no
    ["="] is the fatal formatting error, one with more than one ["="] is an
    unpacking error. *)
Theorem parseInput_segments (data : string) (c : Communicator) :
  data <> "" ->
  parseInput (PyStr data) c =
    (c, match find malformed (segments data) with
        | None => Ok (dict_from string_dec [] (map entry (segments data)))
        | Some bad =>
            if (count "=" bad =? 0)%nat
            then Raise (PoorlyFormed bad (split ";" data))
            else Raise (ValueError "too many values to unpack (expected 2)")
        end).
Proof.
  intros Hne. unfold parseInput, bind, of_result. cbn [len].
  destruct data as [|ch data]; [congruence|]. cbn [String.length Nat.eqb].
  rewrite parse_pairs_spec. reflexivity.
Qed.

Lemma parseInput_segments_witness :
  "a=1;b=2,3,4;" <> "" /\
  parseInput (PyStr "a=1;b=2,3,4;") idle_communicator =
    (idle_communicator, Ok [("a", VStr "1"); ("b", VList ["2"; "3"; "4"])]).
Proof.
  split; [discriminate|].
  exact (parseInput_segments "a=1;b=2,3,4;" idle_communicator
           ltac:(discriminate)).
Defined.

(** *** Encode_spec, then decode *)

Lemma Encode_spec_wire (fields : list (string * value)) : Encode_spec fields = wire fields.
Proof.
  unfold Encode_spec.
  enough (Hgen : forall acc,
    fold_left (fun msg kv =>
      appendKeyValuePair msg (fst kv) (Some (wire_value_spec (snd kv)))) fields acc
    = acc ++ wire fields) by apply (Hgen "").
  induction fields as [|kv rest IH]; intros acc; simpl.
  - now rewrite append_empty_r.
  - rewrite IH. unfold appendKeyValuePair. rewrite !append_assoc. reflexivity.
Qed.

Lemma reserved_free_parts (s : string) :
  reserved_free s = true ->
  contains ";" s = false /\ contains "=" s = false /\ contains "," s = false.
Proof.
  unfold reserved_free. rewrite !andb_true_iff, !negb_true_iff. tauto.
Qed.

Lemma wire_value_facts (v : value) :
  match v with
  | VStr s => reserved_free s && negb (ends_with_space s)
  | VList l =>
      (2 <=? List.length l)%nat && forallb reserved_free l &&
      negb (ends_with_space (last l ""))
  end = true ->
  contains ";" (wire_value_spec v) = false /\
  contains "=" (wire_value_spec v) = false /\
  ends_with_space (wire_value_spec v) = false /\
  read_value (wire_value_spec v) = v.
Proof.
  destruct v as [s|l]; cbn [wire_value_spec].
  - rewrite andb_true_iff, negb_true_iff. intros [Hs He].
    apply reserved_free_parts in Hs as (H1 & H2 & H3).
    unfold read_value. rewrite H3. auto.
  - rewrite !andb_true_iff, negb_true_iff. intros [[Hlen Hall] He].
    apply Nat.leb_le in Hlen.
    assert (Hno : forall ch, (ch = ";" \/ ch = "=")%char ->
              contains ch (join "," l) = false).
    { intros ch Hch. clear Hlen He.
      induction l as [|x l IH]; [reflexivity|].
      cbn [forallb] in Hall. apply andb_true_iff in Hall as [Hx Hall].
      apply reserved_free_parts in Hx as (H1 & H2 & H3).
      assert (Hxc : contains ch x = false) by (destruct Hch; subst; assumption).
      destruct l as [|y l]; [exact Hxc|].
      change (join "," (x :: y :: l)) with (x ++ String "," (join "," (y :: l))).
      rewrite contains_append, Hxc. cbn [contains orb].
      rewrite (IH Hall).
      destruct Hch; subst; reflexivity. }
    repeat split.
    + apply Hno. now left.
    + apply Hno. now right.
    + now rewrite ends_with_space_join.
    + unfold read_value. rewrite (contains_join "," l Hlen).
      f_equal. apply (split_join "," l).
      * destruct l; [simpl in Hlen; lia | discriminate].
      * clear Hlen He Hno. induction l as [|x l IH]; [reflexivity|].
        cbn [forallb] in *. apply andb_true_iff in Hall as [Hx Hall].
        apply reserved_free_parts in Hx as (H1 & H2 & H3).
        rewrite H3, (IH Hall). reflexivity.
Qed.

Lemma body_facts (kv : string * value) :
  wire_safe kv = true ->
  contains ";" (body kv) = false /\
  strip (body kv) = body kv /\
  (String.length (body kv) =? 0)%nat = false /\
  contains "=" (body kv) = true /\
  split "=" (body kv) = [fst kv; wire_value_spec (snd kv)] /\
  read_value (wire_value_spec (snd kv)) = snd kv.
Proof.
  destruct kv as [k v]. unfold wire_safe, body. cbn [fst snd].
  rewrite !andb_true_iff, !negb_true_iff. intros [[[Hk1 Hk2] Hk3] Hv].
  apply wire_value_facts in Hv as (Hv1 & Hv2 & Hv3 & Hv4).
  change (k ++ "=" ++ wire_value_spec v) with (k ++ String "=" (wire_value_spec v)).
  repeat split.
  - rewrite contains_append, Hk1. cbn. exact Hv1.
  - apply strip_id.
    + destruct k; [reflexivity | exact Hk3].
    + rewrite ends_with_space_append, ends_with_space_cons by reflexivity.
      exact Hv3.
  - destruct k; reflexivity.
  - rewrite contains_append. cbn. apply orb_true_r.
  - rewrite split_append_sep by exact Hk2. now rewrite split_absent.
  - exact Hv4.
Qed.

Lemma split_wire (fields : list (string * value)) :
  forallb wire_safe fields = true ->
  split ";" (wire fields) = (map body fields ++ [""])%list.
Proof.
  induction fields as [|kv rest IH]; [reflexivity|].
  cbn [forallb]. rewrite andb_true_iff. intros [Hkv Hrest].
  apply body_facts in Hkv as (Hsemi & _).
  cbn [wire map app].
  change (fst kv ++ "=" ++ wire_value_spec (snd kv) ++ ";" ++ wire rest)
    with (fst kv ++ String "=" (wire_value_spec (snd kv) ++ String ";" (wire rest))).
  replace (fst kv ++ String "=" (wire_value_spec (snd kv) ++ String ";" (wire rest)))
    with (body kv ++ String ";" (wire rest))
    by (unfold body; rewrite append_assoc; reflexivity).
  rewrite split_append_sep by exact Hsemi.
  now rewrite IH.
Qed.

Lemma parse_bodies (kvp : list string) (fields : list (string * value)) :
  forallb wire_safe fields = true ->
  forall res,
    parse_pairs kvp (map body fields ++ [""])%list res =
      Ok (dict_from string_dec res fields).
Proof.
  induction fields as [|kv rest IH]; intros Hall res; [reflexivity|].
  cbn [forallb] in Hall. apply andb_true_iff in Hall as [Hkv Hrest].
  apply body_facts in Hkv as (_ & Hstrip & Hlen & Heq & Hsplit & Hval).
  cbn [map app parse_pairs]. rewrite Hstrip, Hlen, Heq, Hsplit. cbn [negb].
  fold (read_value (wire_value_spec (snd kv))). rewrite Hval.
  now rewrite IH.
Qed.

(** Decoding the encoding of a list of fields gives the dictionary of these
    fields. *)
Lemma roundtrip_fields (fields : list (string * value)) (c : Communicator) :
  forallb wire_safe fields = true ->
  snd (parseInput (PyStr (Encode_spec fields)) c) =
    Ok (dict_from string_dec [] fields).
Proof.
  intros Hall. rewrite Encode_spec_wire.
  unfold parseInput, bind, of_result. cbn [len].
  destruct fields as [|kv rest]; [reflexivity|].
  assert (Hlen : (String.length (wire (kv :: rest)) =? 0)%nat = false).
  { cbn [wire]. destruct (fst kv); reflexivity. }
  rewrite Hlen, split_wire by exact Hall.
  now rewrite parse_bodies.
Qed.

Lemma claim_edge_wire_safe (kv : string * value) :
  claim_field kv = true -> edge_field kv = true -> wire_safe kv = true.
Proof.
  destruct kv as [k v]. unfold claim_field, edge_field, wire_safe, clean.
  cbn [fst snd]. rewrite !andb_true_iff.
  intros [[_ Hk] Hv] [Hks He].
  apply reserved_free_parts in Hk as (H1 & H2 & _).
  rewrite H1, H2. repeat split; try assumption.
  destruct v as [s|l].
  - rewrite !andb_true_iff in *. tauto.
  - rewrite !andb_true_iff in *. destruct He as [Hlen He].
    repeat split; try assumption.
    clear -Hv. induction l as [|x l IH]; [reflexivity|].
    cbn [forallb] in *. rewrite !andb_true_iff in *. tauto.
Qed.

(** C5 as stated fails: a key that begins with a blank loses it, and a list
    of one element comes back as a scalar. Both messages have non-empty keys
    and values free of the reserved characters. *)
Lemma decode_encode_not_identity :
  (forallb claim_field message_leading_space = true /\
   dict_wf message_leading_space /\
   snd (parseInput (PyStr (Encode_spec message_leading_space)) idle_communicator)
     = Ok [("a", VStr "b")] /\
   snd (parseInput (PyStr (Encode_spec message_leading_space)) idle_communicator)
     <> Ok message_leading_space) /\
  (forallb claim_field message_singleton_list = true /\
   dict_wf message_singleton_list /\
   snd (parseInput (PyStr (Encode_spec message_singleton_list)) idle_communicator)
     = Ok [("k", VStr "x")] /\
   snd (parseInput (PyStr (Encode_spec message_singleton_list)) idle_communicator)
     <> Ok message_singleton_list).
Proof.
  split; (split; [reflexivity|]);
    (split; [repeat constructor; simpl; tauto|]);
    (split; [reflexivity | discriminate]).
Qed.

(** C5, amended. For every message whose keys and values (every element of
    a list value included) are non-empty and free of [";"], ["="] and [","],
    whose keys do not begin with whitespace, whose scalar values and last
    list elements do not end with whitespace, and whose list values have at
    least two elements, decoding the encoding gives the message back. *)
Theorem decode_encode (m : dict string value) (c : Communicator) :
  dict_wf m ->
  forallb claim_field m = true ->
  forallb edge_field m = true ->
  snd (parseInput (PyStr (Encode_spec m)) c) = Ok m.
Proof.
  intros Hwf Hclaim Hedge.
  rewrite roundtrip_fields.
  - f_equal. apply (dict_from_fresh string_dec m []). exact Hwf.
  - apply forallb_forall. intros kv Hin.
    rewrite forallb_forall in Hclaim, Hedge.
    apply claim_edge_wire_safe; auto.
Qed.

Lemma decode_encode_witness :
  snd (parseInput (PyStr (Encode_spec message_ab)) idle_communicator) = Ok message_ab.
Proof.
  apply (decode_encode message_ab idle_communicator).
  - repeat constructor; simpl; intuition discriminate.
  - reflexivity.
  - reflexivity.
Defined.

(** ** The worker *)

Lemma append_inv_head (a x y : string) : a ++ x = a ++ y -> x = y.
Proof.
  induction a as [|c a IH]; simpl; [trivial|].
  intros Heq. injection Heq as Heq. now apply IH.
Qed.

Lemma path_join_inj (out a b : string) :
  startswith "/" a = false -> startswith "/" b = false ->
  path_join out a = path_join out b -> a = b.
Proof.
  unfold path_join. intros -> ->.
  destruct ((String.length out =? 0)%nat || endswith "/" out).
  - apply append_inv_head.
  - intros Heq. apply append_inv_head in Heq. now injection Heq.
Qed.

Lemma array_files_NoDup (out : string) :
  NoDup (map (fun name => path_join out (name ++ ".npy")) array_names).
Proof.
  apply NoDup_map_NoDup_ForallPairs.
  - intros a b Ha Hb Heq.
    assert (Hs : forall n, In n array_names -> startswith "/" (n ++ ".npy") = false).
    { intros n Hn. simpl in Hn.
      repeat (destruct Hn as [<-|Hn]; [reflexivity|]). destruct Hn. }
    apply path_join_inj in Heq; [|now apply Hs|now apply Hs].
    simpl in Ha, Hb.
    repeat (destruct Ha as [<-|Ha]; [
      repeat (destruct Hb as [<-|Hb]; [first [reflexivity | discriminate Heq]|]);
      destruct Hb |]).
    destruct Ha.
  - repeat constructor; simpl; intuition discriminate.
Qed.

Section WorkerFacts.
Context {obj : Type} `{External obj}.
Implicit Types (env : Env obj) (w : JuliaWorkerThread).

(** The loop saves the arrays in the order of the keys until a call of
    [np.save] raises: the first [k] keys are saved; a normal end saves them
    all, and an exception is the one [np.save] raised at key [k]. *)
Lemma save_all_prefix env (out : string) (DATA : dict string (saved obj))
    (ks : list string) (evs : list (wevent obj)) :
  exists k,
    fst (save_all env out DATA ks evs) =
      (evs ++ map (fun key => Save (path_join out (key ++ ".npy"))
                                (dict_get string_dec key DATA))
                (firstn k ks))%list /\
    (snd (save_all env out DATA ks evs) = Ok tt -> k = List.length ks) /\
    (forall e, snd (save_all env out DATA ks evs) = Raise e ->
       k < List.length ks /\
       exists key, nth_error ks k = Some key /\
         save env (path_join out (key ++ ".npy"))
           (dict_get string_dec key DATA) = Raise e).
Proof.
  revert evs. induction ks as [|key ks IH]; intros evs.
  - exists 0. cbn. rewrite app_nil_r. repeat split; discriminate.
  - cbn [save_all]. unfold np_save, bind, of_result, modify.
    destruct (save env (path_join out (key ++ ".npy"))
                (dict_get string_dec key DATA)) as [[]|e0] eqn:Hsave;
      cbv beta iota.
    + destruct (IH (evs ++ [Save (path_join out (key ++ ".npy"))
                              (dict_get string_dec key DATA)])%list)
        as (k & Hfst & Hok & Herr).
      exists (S k). cbn [firstn map List.length nth_error].
      rewrite Hfst, <- app_assoc. split; [reflexivity|]. split.
      * intros Hs. now rewrite (Hok Hs).
      * intros e He. destruct (Herr e He) as (Hlt & Hkey).
        split; [lia | exact Hkey].
    + exists 0. cbn. rewrite app_nil_r. split; [reflexivity|]. split.
      * discriminate.
      * intros e He. injection He as <-. split; [lia|].
        exists key. split; [reflexivity | exact Hsave].
Qed.

Lemma save_all_events env (out : string) (DATA : dict string (saved obj))
    (ks : list string) (evs evs' : list (wevent obj)) :
  save_all env out DATA ks evs = (evs', Ok tt) ->
  evs' =
    (evs ++ map (fun key => Save (path_join out (key ++ ".npy"))
                              (dict_get string_dec key DATA)) ks)%list.
Proof.
  intros Heq.
  destruct (save_all_prefix env out DATA ks evs) as (k & Hfst & Hok & _).
  rewrite Heq in Hfst, Hok. cbn [fst snd] in *.
  rewrite (Hok eq_refl), firstn_all in Hfst. exact Hfst.
Qed.

(** C2, amended. For every successful run, the worker saves exactly eight
    arrays into the output directory, one file per named array and no two
    under one path: the seven results of the solver as they are, and one
    mesh record made of the three mesh parameters and the elapsed time. *)
Theorem run_saves_eight_arrays env w (evs : list (wevent obj)) :
  run_body env w [] = (evs, Ok tt) ->
  exists r0 r1 r2 r3 r4 r5 r6 r7 r8 r9 rest,
    solve env (fst (params w)) =
      Ok (r0 :: r1 :: r2 :: r3 :: r4 :: r5 :: r6 :: r7 :: r8 :: r9 :: rest) /\
    saves evs =
      map (fun nd => (path_join (snd (params w)) (fst nd ++ ".npy"), Some (snd nd)))
        [ ("c_save", Value r0);
          ("t_save", Value r1);
          ("w_save", Value r2);
          ("v_save", Value r3);
          ("regime_save", Value r4);
          ("PSI_save", Value r5);
          ("p_save", Value r6);
          ("mesh_config",
           Array2 [[r7; r8; r9; fsub (time_et env) (time_st env)]]) ] /\
    List.length (saves evs) = 8 /\
    NoDup (map fst (saves evs)).
Proof.
  unfold run_body. destruct (params w) as [in_dir out_dir] eqn:Hp.
  cbn [fst snd]. unfold bind, of_result, print, modify, raise, ret.
  destruct (path_exists env in_dir); cbn [negb]; [|discriminate].
  destruct (path_exists env out_dir); cbn [negb]; [|discriminate].
  destruct (solve env in_dir) as [res|e]; [|discriminate].
  destruct res as [|r0 [|r1 [|r2 [|r3 [|r4 [|r5 [|r6 [|r7 [|r8 [|r9 rest]]]]]]]]]];
    try discriminate.
  cbn [index nth_error].
  match goal with
  | |- context [save_all ?e ?o ?D ?k ?ev] =>
      destruct (save_all e o D k ev) as [evs1 [[]|e1]] eqn:Hsave
  end; [|discriminate].
  apply save_all_events in Hsave. subst evs1.
  intros Heq. injection Heq as <-.
  exists r0, r1, r2, r3, r4, r5, r6, r7, r8, r9, rest.
  split; [reflexivity|].
  match goal with
  | |- ?S = ?R /\ _ => assert (Hsaves : S = R)
  end.
  { reflexivity. }
  rewrite Hsaves. split; [reflexivity|]. split; [reflexivity|].
  rewrite map_map. cbn [fst]. apply (array_files_NoDup out_dir).
Qed.
End WorkerFacts.

(** C2 as stated fails: a successful run saves eight files, not seven. *)
Lemma run_saves_not_seven :
  run_body env_ok worker_job1 [] = (events_job1, Ok tt) /\
  map fst (saves events_job1) =
    [ "/tmp/out/c_save.npy"; "/tmp/out/t_save.npy"; "/tmp/out/w_save.npy";
      "/tmp/out/v_save.npy"; "/tmp/out/regime_save.npy";
      "/tmp/out/PSI_save.npy"; "/tmp/out/p_save.npy";
      "/tmp/out/mesh_config.npy" ] /\
  List.length (saves events_job1) <> 7.
Proof. repeat split. discriminate. Qed.

Lemma run_saves_eight_arrays_witness :
  run_body env_ok worker_job1 [] = (events_job1, Ok tt) /\
  List.length (saves events_job1) = 8.
Proof.
  split; [reflexivity|].
  destruct (run_saves_eight_arrays env_ok worker_job1 events_job1 eq_refl)
    as (r0 & r1 & r2 & r3 & r4 & r5 & r6 & r7 & r8 & r9 & rest & _ & _ & Hlen & _).
  exact Hlen.
Defined.

(** ** The events of a worker *)

Section EventFacts.
Context {obj : Type} `{External obj}.
Implicit Types (env : Env obj) (w : JuliaWorkerThread).
Implicit Type P : wevent obj -> Prop.

Lemma keeps_bind {A B} P (m : M (list (wevent obj)) A)
    (k : A -> M (list (wevent obj)) B) :
  keeps P m -> (forall a, keeps P (k a)) -> keeps P (bind m k).
Proof.
  intros Hm Hk evs Hevs. unfold bind. specialize (Hm evs Hevs).
  destruct (m evs) as [evs' [a|e]]; cbn in *; [now apply Hk | exact Hm].
Qed.

Lemma keeps_of_result {A} P (r : result A) : keeps P (of_result r).
Proof. intros evs Hevs. exact Hevs. Qed.

Lemma keeps_ret {A} P (a : A) : keeps P (ret a).
Proof. intros evs Hevs. exact Hevs. Qed.

Lemma keeps_raise {A} P (e : exn) : keeps P (@raise _ A e).
Proof. intros evs Hevs. exact Hevs. Qed.

Lemma keeps_print P (id text : string) :
  P (Print id text) -> keeps P (print id text).
Proof.
  intros Hp evs Hevs. cbn. apply Forall_app. split; [exact Hevs|].
  now constructor.
Qed.

Lemma keeps_save_all P env (out : string) (DATA : dict string (saved obj))
    (ks : list string) :
  (forall file data, P (Save file data)) -> keeps P (save_all env out DATA ks).
Proof.
  intros Hp evs Hevs.
  destruct (save_all_prefix env out DATA ks evs) as (k & -> & _).
  apply Forall_app. split; [exact Hevs|].
  apply Forall_forall. intros ev Hin. apply in_map_iff in Hin as (key & <- & _).
  apply Hp.
Qed.

Lemma run_body_keeps env w : keeps (quiet (pid w)) (run_body env w).
Proof.
  unfold run_body. destruct (params w) as [in_dir out_dir]. cbv zeta.
  repeat first
    [ apply keeps_save_all; intros; exact I
    | apply keeps_print; reflexivity
    | apply keeps_of_result
    | apply keeps_ret
    | apply keeps_raise
    | apply keeps_bind; [|intros ?]
    | match goal with |- keeps _ (if ?b then _ else _) => destruct b end ].
Qed.

(** A run is a sequence of quiet events, followed, when the body raised,
    by one emission of [stderr] that carries the id of the worker. *)
Lemma run_cases env w :
  exists evs,
    Forall (quiet (pid w)) evs /\
    ((snd (run_body env w []) = Ok tt /\ run env w = evs) \/
     (exists e, snd (run_body env w []) = Raise e /\
                run env w = (evs ++ [EmitStderr (pid w) e])%list)).
Proof.
  unfold run. pose proof (run_body_keeps env w [] (Forall_nil _)) as Hq.
  destruct (run_body env w []) as [evs [[]|e]]; cbn in *; exists evs.
  - split; [exact Hq | left; auto].
  - split; [exact Hq | right; eauto].
Qed.

(** Every event of a run carries the id of its worker, or none. *)
Lemma run_events_tagged env w :
  Forall (fun ev => event_id ev = None \/ event_id ev = Some (pid w))
    (run env w).
Proof.
  destruct (run_cases env w) as (evs & Hq & [[_ ->]|(e & _ & ->)]).
  - eapply Forall_impl; [|exact Hq].
    intros [] Hev; cbn in *; subst; auto; contradiction.
  - apply Forall_app. split.
    + eapply Forall_impl; [|exact Hq].
      intros [] Hev; cbn in *; subst; auto; contradiction.
    + constructor; [now right | constructor].
Qed.
(** A run ends with the print of its completion, or with the emission of
    [stderr] that carries the exception of its body. *)
Lemma run_ends env w :
  exists evs last,
    run env w = (evs ++ [last])%list /\
    (snd (run_body env w []) = Ok tt /\ last = Print (pid w) "action=completed"
     \/ exists e, snd (run_body env w []) = Raise e /\
                  last = EmitStderr (pid w) e).
Proof.
  unfold run.
  destruct (run_body env w []) as [evs [[]|e]] eqn:Hrun; cbn [snd].
  - revert Hrun. unfold run_body. destruct (params w) as [in_dir out_dir].
    unfold bind at 1.
    destruct (path_exists env in_dir); cbn [negb]; [|discriminate].
    unfold ret at 1. unfold bind at 1.
    destruct (path_exists env out_dir); cbn [negb]; [|discriminate].
    unfold ret at 1.
    repeat (unfold bind at 1;
            match goal with
            | |- context [print ?i ?t ?evs0] =>
                change (print i t evs0) with ((evs0 ++ [Print i t])%list, @Ok unit tt)
            | |- context [of_result ?r ?evs0] =>
                change (of_result r evs0) with (evs0, r); destruct r; [|discriminate]
            | |- context [save_all ?e ?o ?D ?ks ?evs0] =>
                destruct (save_all e o D ks evs0) as [? [[]|?]]; [|discriminate]
            end; cbv beta iota).
    intros Heq. injection Heq as <-. eexists _, _. split; [reflexivity|].
    left. split; reflexivity.
  - exists evs, (EmitStderr (pid w) e). split; [reflexivity|].
    right. exists e. split; reflexivity.
Qed.
End EventFacts.

(** ** The status envelope *)

(** The line of a status message is the encoding of its four fields,
    followed by the newline of [send]. *)
Lemma status_line_Encode_spec (failed : bool) (text : option string)
    (log : bool) (thread_id : option string) :
  status_line failed text log thread_id =
    Encode_spec
      [ ("failed", VStr (lower_bool failed));
        ("text", VStr match text with None => "none" | Some t => t end);
        ("log", VStr (lower_bool log));
        ("pid", VStr match thread_id with None => "none" | Some p => p end) ]
    ++ nl.
Proof.
  unfold status_line, Encode_spec, appendKeyValuePair.
  repeat (progress (cbn; rewrite ?append_assoc)). reflexivity.
Qed.

(** ** The supervisor *)

Section SupervisorFacts.
Context {obj : Type} `{External obj}.
Implicit Types (s : JuliaSolver obj) (k : pykey) (env : Env obj).
Implicit Types (w t : JuliaWorkerThread).

Ltac run_monad :=
  cbv beta iota delta
    [bind gets ret raise modify of_result set_threads record fresh slot].

(** Every status line is the envelope of four fields. *)
Lemma logData_eq (failed : bool) (text : option string) (log : bool)
    (thread_id : option string) s :
  logData failed text log thread_id s =
    (with_line s (status_line failed text log thread_id), Ok tt).
Proof.
  destruct s as [ths [n rs ws a wr em] o tr].
  unfold logData, liftC, send, bind, write, emit, modify, with_line,
    status_line, appendKeyValuePair.
  repeat (progress (cbn; rewrite ?append_assoc)). reflexivity.
Qed.

Lemma killThread_eq k s :
  killThread (IdKey k) s =
    match dict_get pykey_eq_dec k (threads s) with
    | None =>
        (with_line s
           (status_line false
              (Some ("[WARNING] Thread with id '" ++ str_of_key k
                     ++ "', does not exists")) true (key_str k)),
         Ok tt)
    | Some t =>
        (with_line
           (with_trace
              (with_threads s (dict_remove pykey_eq_dec k (threads s)))
              [Terminate t])
           (status_line false
              (Some ("[ACTION] Thread<" ++ str_of_key k ++ "> Terminated"))
              true (key_str k)),
         Ok tt)
    end.
Proof.
  unfold killThread, dict_pop. run_monad.
  destruct (dict_get pykey_eq_dec k (threads s)) as [t|]; run_monad;
    rewrite logData_eq; reflexivity.
Qed.

Lemma handleThreadFinished_eq (id : string) s :
  handleThreadFinished id s =
    let s1 :=
      with_line s
        (status_line false
           (Some ("thread with pid: <" ++ id ++ "> finished successfully"))
           true (Some id)) in
    match dict_get pykey_eq_dec (KStr id) (threads s) with
    | None => (s1, Ok tt)
    | Some t =>
        (with_trace
           (with_threads s1 (dict_remove pykey_eq_dec (KStr id) (threads s)))
           [DeleteLater t],
         Ok tt)
    end.
Proof.
  unfold handleThreadFinished, dict_pop, dict_mem. run_monad.
  rewrite logData_eq. run_monad. cbn [threads with_line].
  destruct (dict_get pykey_eq_dec (KStr id) (threads s)) as [t|]; run_monad;
    reflexivity.
Qed.

Lemma handleThreadError_eq (id : string) (e : exn) s :
  handleThreadError (id, e) s =
    match dict_get pykey_eq_dec (KStr id) (threads s) with
    | None => (s, Raise (KeyError (KStr id)))
    | Some t =>
        (with_line
           (with_trace
              (with_threads s (dict_remove pykey_eq_dec (KStr id) (threads s)))
              [DeleteLater t])
           (status_line true
              (Some ("[ERROR] Thread with id: '" ++ id
                     ++ "' failed. Error below")) true (Some id)),
         Raise (ExceptionOf e))
    end.
Proof.
  unfold handleThreadError, dict_pop. run_monad.
  destruct (dict_get pykey_eq_dec (KStr id) (threads s)) as [t|]; run_monad.
  - rewrite logData_eq. reflexivity.
  - reflexivity.
Qed.

Lemma deliver_quiet (id : string) (evs tail : list (wevent obj)) s :
  Forall (quiet id) evs ->
  deliver (evs ++ tail) s = deliver tail (with_trace s (map Worker evs)).
Proof.
  intros Hq. revert s. induction Hq as [|ev evs Hev Hq IH]; intros s.
  - cbn. unfold with_trace. rewrite app_nil_r. now destruct s.
  - cbn [app deliver]. unfold bind at 1. cbn [record modify].
    unfold bind at 1.
    assert (Hd : forall s', dispatch ev s' = (s', Ok tt))
      by (destruct ev; cbn in Hev; try contradiction; reflexivity).
    rewrite Hd, IH. f_equal. unfold with_trace. cbn.
    now rewrite <- app_assoc.
Qed.

(** What the run of a worker does to the state of the supervisor. *)
Lemma deliver_run env w s :
  exists s' rest,
    deliver (run env w) s = (s', Ok tt) /\
    next_oid s' = next_oid s /\
    trace s' = (trace s ++ rest)%list /\
    (threads s' = threads s \/
     threads s' = dict_remove pykey_eq_dec (KStr (pid w)) (threads s)) /\
    (snd (run_body env w []) = Ok tt -> threads s' = threads s) /\
    (dict_get pykey_eq_dec (KStr (pid w)) (threads s) = None ->
     threads s' = threads s).
Proof.
  destruct (run_cases env w) as (evs & Hq & [[Hok ->]|(e & Herr & ->)]).
  - rewrite <- (app_nil_r evs), (deliver_quiet _ _ _ _ Hq).
    eexists _, _. split; [reflexivity|]. cbn. auto.
  - rewrite (deliver_quiet _ _ _ _ Hq).
    cbn [deliver dispatch]. run_monad.
    rewrite handleThreadError_eq. cbn [threads with_trace].
    destruct (dict_get pykey_eq_dec (KStr (pid w)) (threads s)) as [t|] eqn:Hg;
      run_monad.
    + eexists _, _. split; [reflexivity|]. cbn.
      split; [reflexivity|]. split; [rewrite <- !app_assoc; reflexivity|].
      split; [now right|]. split; [rewrite Herr|]; discriminate.
    + eexists _, _. split; [reflexivity|]. cbn.
      split; [reflexivity|]. split; [rewrite <- !app_assoc; reflexivity|].
      auto.
Qed.

Lemma spawnThread_outcome k (args : string * string) env s :
  let new := JuliaWorkerThread_init (next_oid s) args k env in
  let base :=
    dict_update pykey_eq_dec (dict_remove pykey_eq_dec k (threads s)) k new in
  exists s' rest,
    spawnThread (IdKey k) args env s = (s', Ok tt) /\
    next_oid s' = S (next_oid s) /\
    trace s' =
      (trace s ++
       match dict_get pykey_eq_dec k (threads s) with
       | Some old => [Terminate old]
       | None => []
       end ++ Create new :: rest)%list /\
    (threads s' = base \/
     threads s' = dict_remove pykey_eq_dec (KStr (pid new)) base) /\
    (snd (run_body env new []) = Ok tt -> threads s' = base) /\
    (dict_get pykey_eq_dec (KStr (pid new)) base = None -> threads s' = base).
Proof.
  intros new base. unfold spawnThread. run_monad.
  rewrite logData_eq. run_monad. cbn [threads with_line]. unfold dict_mem.
  destruct (dict_get pykey_eq_dec k (threads s)) as [old|] eqn:Hg; run_monad.
  - rewrite logData_eq. run_monad. rewrite killThread_eq.
    cbn [threads with_line]. rewrite Hg. run_monad.
    cbn [threads communicator next_oid trace with_line with_trace with_threads].
    fold new. fold base.
    match goal with |- context [deliver (run env new) ?st] =>
      destruct (deliver_run env new st)
        as (s' & rest & Hd & Hn & Ht & Hth & Hok & Hfresh)
    end.
    cbn [threads communicator next_oid trace] in *.
    exists s', rest. rewrite Hd, Hn, Ht, <- !app_assoc. auto 10.
  - cbn [threads communicator next_oid trace with_line with_trace with_threads].
    assert (Hb : dict_update pykey_eq_dec (threads s) k new = base)
      by (unfold base; now rewrite dict_remove_absent).
    fold new. rewrite Hb.
    match goal with |- context [deliver (run env new) ?st] =>
      destruct (deliver_run env new st)
        as (s' & rest & Hd & Hn & Ht & Hth & Hok & Hfresh)
    end.
    cbn [threads communicator next_oid trace] in *.
    exists s', rest. rewrite Hd, Hn, Ht, <- !app_assoc. auto 10.
Qed.

(** The trace of a run delivered to the supervisor: every event of the
    worker, in order, and then what the error handler did when the body
    raised: the release of the worker registered under the id of the event
    and the exception that leaves the slot, or the [KeyError] of the pop
    when no worker is registered under that id. *)
Lemma deliver_run_trace env w s :
  exists tail,
    trace (fst (deliver (run env w) s)) =
      (trace s ++ map Worker (run env w) ++ tail)%list /\
    (snd (run_body env w []) = Ok tt -> tail = []) /\
    (forall e, snd (run_body env w []) = Raise e ->
       tail =
         match dict_get pykey_eq_dec (KStr (pid w)) (threads s) with
         | Some t => [DeleteLater t; Unhandled (ExceptionOf e)]
         | None => [Unhandled (KeyError (KStr (pid w)))]
         end).
Proof.
  destruct (run_cases env w) as (evs & Hq & [[Hok ->]|(e & Herr & ->)]).
  - assert (Hd : deliver evs s = (with_trace s (map Worker evs), Ok tt)).
    { rewrite <- (app_nil_r evs) at 1. rewrite (deliver_quiet _ _ _ _ Hq).
      reflexivity. }
    rewrite Hd. exists []. cbn. rewrite app_nil_r. split; [reflexivity|].
    split; [reflexivity|]. intros e He. rewrite Hok in He. discriminate.
  - rewrite (deliver_quiet _ _ _ _ Hq).
    cbn [deliver dispatch]. run_monad.
    rewrite handleThreadError_eq. cbn [threads with_trace].
    destruct (dict_get pykey_eq_dec (KStr (pid w)) (threads s)) as [t|] eqn:Hg;
      run_monad; eexists; (split; [cbn; rewrite map_app, <- !app_assoc; cbn;
                                   reflexivity|]);
      (split; [rewrite Herr; discriminate|]);
      intros e' He'; rewrite Herr in He'; injection He' as <-; reflexivity.
Qed.

Lemma spawnThread_trace k (args : string * string) env s :
  let new := JuliaWorkerThread_init (next_oid s) args k env in
  let base :=
    dict_update pykey_eq_dec (dict_remove pykey_eq_dec k (threads s)) k new in
  exists tail,
    trace (fst (spawnThread (IdKey k) args env s)) =
      (trace s ++
       match dict_get pykey_eq_dec k (threads s) with
       | Some old => [Terminate old]
       | None => []
       end ++ Create new :: map Worker (run env new) ++ tail)%list /\
    (snd (run_body env new []) = Ok tt -> tail = []) /\
    (forall e, snd (run_body env new []) = Raise e ->
       tail =
         match dict_get pykey_eq_dec (KStr (pid new)) base with
         | Some t => [DeleteLater t; Unhandled (ExceptionOf e)]
         | None => [Unhandled (KeyError (KStr (pid new)))]
         end).
Proof.
  intros new base. unfold spawnThread. run_monad.
  rewrite logData_eq. run_monad. cbn [threads with_line]. unfold dict_mem.
  destruct (dict_get pykey_eq_dec k (threads s)) as [old|] eqn:Hg; run_monad.
  - rewrite logData_eq. run_monad. rewrite killThread_eq.
    cbn [threads with_line]. rewrite Hg. run_monad.
    cbn [threads communicator next_oid trace with_line with_trace with_threads].
    fold new. fold base.
    match goal with |- context [deliver (run env new) ?st] =>
      destruct (deliver_run_trace env new st) as (tail & Ht & Hok & Herr)
    end.
    cbn [threads trace] in *.
    exists tail. rewrite Ht, <- !app_assoc. auto.
  - cbn [threads communicator next_oid trace with_line with_trace with_threads].
    assert (Hb : dict_update pykey_eq_dec (threads s) k new = base)
      by (unfold base; now rewrite dict_remove_absent).
    fold new. rewrite Hb.
    match goal with |- context [deliver (run env new) ?st] =>
      destruct (deliver_run_trace env new st) as (tail & Ht & Hok & Herr)
    end.
    cbn [threads trace] in *.
    exists tail. rewrite Ht, <- !app_assoc. auto.
Qed.
(** *** The invariant of the registry *)

Lemma Forall_dict_remove (Q : JuliaWorkerThread -> Prop) k
    (d : dict pykey JuliaWorkerThread) :
  Forall (fun kw => Q (snd kw)) d ->
  Forall (fun kw => Q (snd kw)) (dict_remove pykey_eq_dec k d).
Proof.
  induction 1 as [|[k' v'] d Hx Hd IH]; cbn; [constructor|].
  destruct (pykey_eq_dec k k'); [exact Hd | now constructor].
Qed.

Lemma Forall_dict_update (Q : JuliaWorkerThread -> Prop) k w
    (d : dict pykey JuliaWorkerThread) :
  Forall (fun kw => Q (snd kw)) d -> Q w ->
  Forall (fun kw => Q (snd kw)) (dict_update pykey_eq_dec d k w).
Proof.
  intros Hd Hw. induction Hd as [|[k' v'] d Hx Hd IH]; cbn.
  - now repeat constructor.
  - destruct (pykey_eq_dec k k'); constructor; auto.
Qed.

Lemma registry_ok_remove k s s' :
  registry_ok s ->
  threads s' = dict_remove pykey_eq_dec k (threads s) ->
  next_oid s <= next_oid s' -> registry_ok s'.
Proof.
  intros [Hwf Hold] Hth Hn. split; rewrite Hth.
  - now apply dict_remove_wf.
  - apply (Forall_dict_remove (fun w => oid w < next_oid s')).
    eapply Forall_impl; [|exact Hold].
    cbn. intros kw Hlt. lia.
Qed.

Lemma registry_ok_same s s' :
  registry_ok s -> threads s' = threads s -> next_oid s <= next_oid s' ->
  registry_ok s'.
Proof.
  intros [Hwf Hold] Hth Hn. split; rewrite Hth; [exact Hwf|].
  eapply Forall_impl; [|exact Hold]. cbn. intros kw Hlt. lia.
Qed.

Lemma step_registry_ok s (o : op obj) : registry_ok s -> registry_ok (step s o).
Proof.
  intros Hok. destruct o as [[k|l] args env|[k|l]|id|id e]; unfold step.
  - destruct (spawnThread_outcome k args env s)
      as (s' & rest & Hsp & Hn & _ & Hth & _ & _).
    rewrite Hsp. cbn [fst].
    assert (Hbase : registry_ok
              {| threads :=
                   dict_update pykey_eq_dec
                     (dict_remove pykey_eq_dec k (threads s)) k
                     (JuliaWorkerThread_init (next_oid s) args k env);
                 communicator := communicator s;
                 next_oid := S (next_oid s); trace := trace s |}).
    { destruct Hok as [Hwf Hold]. split; cbn [threads next_oid].
      - apply dict_update_wf. now apply dict_remove_wf.
      - apply (Forall_dict_update (fun w => oid w < S (next_oid s)));
          [|cbn; lia].
        apply (Forall_dict_remove (fun w => oid w < S (next_oid s))).
        eapply Forall_impl; [|exact Hold].
        cbn. intros kw Hlt. lia. }
    destruct Hth as [Hth|Hth].
    + eapply registry_ok_same; [exact Hbase | exact Hth | cbn; lia].
    + eapply registry_ok_remove; [exact Hbase | exact Hth | cbn; lia].
  - unfold spawnThread. run_monad. rewrite logData_eq. run_monad.
    eapply registry_ok_same; [exact Hok | reflexivity | cbn; lia].
  - rewrite killThread_eq.
    destruct (dict_get pykey_eq_dec k (threads s)); cbn [fst].
    + eapply registry_ok_remove; [exact Hok | reflexivity | cbn; lia].
    + eapply registry_ok_same; [exact Hok | reflexivity | cbn; lia].
  - cbn. exact Hok.
  - rewrite handleThreadFinished_eq. cbv zeta.
    destruct (dict_get pykey_eq_dec (KStr id) (threads s)); cbn [fst].
    + eapply registry_ok_remove; [exact Hok | reflexivity | cbn; lia].
    + eapply registry_ok_same; [exact Hok | reflexivity | cbn; lia].
  - rewrite handleThreadError_eq.
    destruct (dict_get pykey_eq_dec (KStr id) (threads s)); cbn [fst].
    + eapply registry_ok_remove; [exact Hok | reflexivity | cbn; lia].
    + exact Hok.
Qed.

Lemma run_ops_registry_ok (os : list (op obj)) s :
  registry_ok s -> registry_ok (run_ops os s).
Proof.
  revert s. induction os as [|o os IH]; intros s Hok; [exact Hok|].
  cbn. apply IH. now apply step_registry_ok.
Qed.

Lemma init_registry_ok (name : option string) (rs ws : QLocalSocket)
    (args_str : string) :
  registry_ok (JuliaSolver_init (obj := obj) name rs ws args_str).
Proof.
  unfold JuliaSolver_init. rewrite logData_eq. cbn [fst].
  split; cbn; constructor.
Qed.

(** C6. In every state the supervisor reaches from its creation by start,
    kill, finished and error operations, the registry holds one entry per
    id; and a start command for an id that is registered there terminates
    the incumbent, then creates the replacement, a new object, registers
    it and runs it: the trace continues with every event of the run of the
    replacement, which goes to its end (the print of the completion, or the
    emission of [stderr]), and then with nothing when the run ended
    normally, or with what the error handler did when it failed. The
    registry is left with the replacement alone under that id, or with no
    entry for it when the run of the replacement has already failed. *)
Theorem restart_replaces_incumbent (name : option string)
    (rs ws : QLocalSocket) (args_str : string) (os : list (op obj)) :
  let s := run_ops os (JuliaSolver_init name rs ws args_str) in
  dict_wf (threads s) /\
  forall k old (args : string * string) env,
    dict_get pykey_eq_dec k (threads s) = Some old ->
    let new := JuliaWorkerThread_init (next_oid s) args k env in
    let s' := fst (spawnThread (IdKey k) args env s) in
    snd (spawnThread (IdKey k) args env s) = Ok tt /\
    new <> old /\
    (exists tail,
        trace s' =
          (trace s ++ Terminate old :: Create new
                   :: map Worker (run env new) ++ tail)%list /\
        (snd (run_body env new []) = Ok tt -> tail = []) /\
        (forall e, snd (run_body env new []) = Raise e ->
           (forall id, k = KStr id ->
              tail = [DeleteLater new; Unhandled (ExceptionOf e)]) /\
           ((exists t, tail = [DeleteLater t; Unhandled (ExceptionOf e)]) \/
            tail = [Unhandled (KeyError (KStr (pid new)))]))) /\
    (exists evs last,
        run env new = (evs ++ [last])%list /\
        (snd (run_body env new []) = Ok tt /\
         last = Print (pid new) "action=completed"
         \/ exists e, snd (run_body env new []) = Raise e /\
                      last = EmitStderr (pid new) e)) /\
    (dict_get pykey_eq_dec k (threads s') = Some new \/
     dict_get pykey_eq_dec k (threads s') = None) /\
    (snd (run_body env new []) = Ok tt ->
     dict_get pykey_eq_dec k (threads s') = Some new) /\
    dict_wf (threads s').
Proof.
  intros s.
  assert (Hok : registry_ok s)
    by apply run_ops_registry_ok, init_registry_ok.
  split; [apply Hok|].
  intros k old args env Hg new s'.
  pose proof (step_registry_ok s (OpStart (IdKey k) args env) Hok) as [Hwf' _].
  change (step s (OpStart (IdKey k) args env)) with s' in Hwf'.
  subst s'.
  pose proof (spawnThread_outcome k args env s) as Hout. cbv zeta in Hout.
  destruct Hout as (s1 & rest & Hsp & Hn & Ht & Hth & Hrun & _).
  pose proof (spawnThread_trace k args env s) as Htr. cbv zeta in Htr.
  destruct Htr as (tail & Htt & Htok & Hterr).
  rewrite Hsp in *. cbn [fst snd] in *.
  fold new in Ht, Hth, Hrun, Htt, Htok, Hterr.
  rewrite Hg in Ht, Htt.
  assert (Hbase : dict_get pykey_eq_dec k
            (dict_update pykey_eq_dec
               (dict_remove pykey_eq_dec k (threads s)) k new) = Some new)
    by apply dict_update_get_same.
  split; [reflexivity|]. split.
  { intros Heq. destruct Hok as [_ Hold].
    assert (Hin : In (k, old) (threads s)).
    { clear -Hg. induction (threads s) as [|[k' v'] d IH]; cbn in *;
        [discriminate|].
      destruct (pykey_eq_dec k k') as [->|]; [left; congruence | right; auto]. }
    rewrite Forall_forall in Hold. specialize (Hold _ Hin).
    cbn in Hold. rewrite <- Heq in Hold. cbn in Hold. lia. }
  split.
  { exists tail. split; [exact Htt|]. split; [exact Htok|].
    intros e He. specialize (Hterr e He). split.
    - intros id Hk.
      assert (Hp : KStr (pid new) = k)
        by (unfold new; rewrite Hk; reflexivity).
      rewrite Hp, Hbase in Hterr. exact Hterr.
    - destruct (dict_get pykey_eq_dec (KStr (pid new))
                  (dict_update pykey_eq_dec
                     (dict_remove pykey_eq_dec k (threads s)) k new))
        as [t|]; [left; exists t; exact Hterr | right; exact Hterr]. }
  split; [apply run_ends|].
  split; [|split; [intros Hr; rewrite (Hrun Hr); exact Hbase | exact Hwf']].
  destruct Hth as [->| ->]; [now left|].
  destruct (pykey_eq_dec k (KStr (pid new))) as [Heq|Hne].
  - right.
    assert (Hsame : forall k1 k2 (d : dict pykey JuliaWorkerThread),
               dict_wf d -> k1 = k2 ->
               dict_get pykey_eq_dec k1 (dict_remove pykey_eq_dec k2 d) = None)
      by (intros k1 k2 d Hd ->; now apply dict_remove_get_same).
    apply Hsame; [|exact Heq].
    apply dict_update_wf. apply dict_remove_wf. apply Hok.
  - left. rewrite dict_remove_get_other by exact Hne. exact Hbase.
Qed.

(** C8. Killing an id that is not in the registry does not raise, sends
    exactly one status line, the warning, and leaves the registry and the
    thread objects as they were. *)
Theorem kill_unregistered k s :
  dict_get pykey_eq_dec k (threads s) = None ->
  exists s',
    killThread (IdKey k) s = (s', Ok tt) /\
    threads s' = threads s /\
    trace s' = trace s /\
    sent_lines s' =
      (sent_lines s ++
       [status_line false
          (Some ("[WARNING] Thread with id '" ++ str_of_key k
                 ++ "', does not exists")%string) true (key_str k)])%list.
Proof.
  intros Hg. rewrite killThread_eq, Hg.
  eexists. split; [reflexivity|]. repeat split.
Qed.

(** C9, amended. In a registry with one entry per id, the first delivery
    of the finished event that carries an id removes the entry registered
    under that id, if there is one, and releases its handle once; a second
    delivery of the same event does not raise, leaves the registry
    unchanged and releases nothing. The entry removed is the one under the
    id of the event, which for a job started without an id is not the
    entry of the job. *)
Theorem finished_twice (id : string) s :
  dict_wf (threads s) ->
  let s1 := fst (handleThreadFinished id s) in
  let s2 := fst (handleThreadFinished id s1) in
  snd (handleThreadFinished id s) = Ok tt /\
  snd (handleThreadFinished id s1) = Ok tt /\
  threads s1 = dict_remove pykey_eq_dec (KStr id) (threads s) /\
  dict_get pykey_eq_dec (KStr id) (threads s1) = None /\
  trace s1 =
    (trace s ++
     match dict_get pykey_eq_dec (KStr id) (threads s) with
     | Some t => [DeleteLater t]
     | None => []
     end)%list /\
  threads s2 = threads s1 /\
  trace s2 = trace s1.
Proof.
  intros Hwf s1 s2.
  assert (H1 : snd (handleThreadFinished id s) = Ok tt /\
               threads s1 = dict_remove pykey_eq_dec (KStr id) (threads s) /\
               trace s1 =
                 (trace s ++
                  match dict_get pykey_eq_dec (KStr id) (threads s) with
                  | Some t => [DeleteLater t]
                  | None => []
                  end)%list).
  { subst s1 s2. rewrite handleThreadFinished_eq. cbv zeta.
    destruct (dict_get pykey_eq_dec (KStr id) (threads s)) eqn:Hg;
      cbn; repeat split.
    - symmetry. now apply dict_remove_absent.
    - now rewrite app_nil_r. }
  destruct H1 as (Hr1 & Hth1 & Htr1).
  assert (Hg1 : dict_get pykey_eq_dec (KStr id) (threads s1) = None)
    by (rewrite Hth1; now apply dict_remove_get_same).
  repeat split; try assumption; subst s2;
    rewrite handleThreadFinished_eq; cbv zeta; rewrite Hg1; reflexivity.
Qed.

(** C10. A start command without an id registers the worker under [None],
    while the worker takes the generated id and carries it in every event;
    so, the generated id being in no entry of the registry, the finished
    event of this worker removes nothing, its entry stays, and its error
    event makes the handler raise a [KeyError] for the generated id. *)
Theorem start_without_pid (args : string * string) env s :
  dict_get pykey_eq_dec (KStr (uuid4 env)) (threads s) = None ->
  let w := JuliaWorkerThread_init (next_oid s) args KNone env in
  let s' := fst (spawnThread (IdKey KNone) args env s) in
  snd (spawnThread (IdKey KNone) args env s) = Ok tt /\
  pid w = uuid4 env /\
  dict_get pykey_eq_dec KNone (threads s') = Some w /\
  dict_get pykey_eq_dec (KStr (pid w)) (threads s') = None /\
  handleStarted (obj := obj) w = EmitThreadStarted (uuid4 env) /\
  handleFinished (obj := obj) w = EmitThreadFinished (uuid4 env) /\
  Forall (fun ev => event_id ev = None \/ event_id ev = Some (uuid4 env))
    (run env w) /\
  (snd (handleThreadFinished (pid w) s') = Ok tt /\
   threads (fst (handleThreadFinished (pid w) s')) = threads s') /\
  (forall e,
      handleThreadError (pid w, e) s' = (s', Raise (KeyError (KStr (pid w))))).
Proof.
  intros Hfresh w s'. subst s'.
  destruct (spawnThread_outcome KNone args env s)
    as (s1 & rest & Hsp & _ & _ & _ & _ & Hkeep).
  fold w in Hkeep. rewrite Hsp. cbn [fst snd].
  assert (Hbase : dict_get pykey_eq_dec (KStr (pid w))
            (dict_update pykey_eq_dec
               (dict_remove pykey_eq_dec KNone (threads s)) KNone w) = None).
  { rewrite dict_update_get_other by discriminate.
    rewrite dict_remove_get_other by discriminate. exact Hfresh. }
  specialize (Hkeep Hbase).
  assert (Hg : dict_get pykey_eq_dec (KStr (pid w)) (threads s1) = None)
    by (rewrite Hkeep; exact Hbase).
  split; [reflexivity|]. split; [reflexivity|].
  split; [rewrite Hkeep; apply dict_update_get_same|].
  split; [exact Hg|]. split; [reflexivity|]. split; [reflexivity|].
  split; [apply (run_events_tagged env w)|].
  split.
  - rewrite handleThreadFinished_eq. cbv zeta. rewrite Hg. split; reflexivity.
  - intros e. rewrite handleThreadError_eq, Hg. reflexivity.
Qed.
End SupervisorFacts.

(** ** The theorems at concrete states *)

Lemma restart_replaces_incumbent_witness :
  dict_get pykey_eq_dec (KStr "job1") (threads solver1) = Some worker_job1 /\
  trace (fst (spawnThread (IdKey (KStr "job1")) ("/tmp/in", "/tmp/out")
                env_ok solver1))
  = (trace solver1 ++
     Terminate worker_job1
     :: Create (JuliaWorkerThread_init 1 ("/tmp/in", "/tmp/out")
                  (KStr "job1") env_ok)
     :: map Worker
          (run env_ok
             (JuliaWorkerThread_init 1 ("/tmp/in", "/tmp/out")
                (KStr "job1") env_ok)))%list.
Proof.
  split; [reflexivity|].
  destruct (proj2 (restart_replaces_incumbent None good_socket good_socket "[]"
                     [start_job1])
              (KStr "job1") worker_job1 ("/tmp/in", "/tmp/out") env_ok eq_refl)
    as (_ & _ & (tail & Htrace & Hnil & _) & _).
  rewrite (Hnil eq_refl), app_nil_r in Htrace.
  exact Htrace.
Defined.

Lemma kill_unregistered_witness :
  dict_get pykey_eq_dec (KStr "job2") (threads solver1) = None /\
  exists s',
    killThread (IdKey (KStr "job2")) solver1 = (s', Ok tt) /\
    threads s' = threads solver1 /\
    sent_lines s' =
      (sent_lines solver1 ++
       [("failed=false;text=[WARNING] Thread with id 'job2', does not exists;log=true;pid=job2;"
         ++ nl)%string])%list.
Proof.
  split; [reflexivity|].
  destruct (kill_unregistered (KStr "job2") solver1 eq_refl)
    as (s' & Hrun & Hth & _ & Hsent).
  exists s'. repeat split; assumption.
Defined.

Lemma finished_twice_witness :
  dict_wf (threads solver1) /\
  dict_get pykey_eq_dec (KStr "job1") (threads solver1) = Some worker_job1 /\
  trace (fst (handleThreadFinished "job1"
                (fst (handleThreadFinished "job1" solver1))))
  = (trace solver1 ++ [DeleteLater worker_job1])%list.
Proof.
  assert (Hwf : dict_wf (threads solver1))
    by (repeat constructor; simpl; tauto).
  split; [exact Hwf|]. split; [reflexivity|].
  destruct (finished_twice "job1" solver1 Hwf)
    as (_ & _ & _ & _ & Ht1 & _ & Ht2).
  rewrite Ht2. exact Ht1.
Defined.

(** C9 as stated fails for a job started without an id: the job is
    registered under [None], its finished event carries the id the worker
    generated, and neither the first nor the second delivery of that event
    removes the job or releases its handle. *)
Lemma finished_keeps_job_without_pid :
  let s := run_ops [OpStart (IdKey KNone) ("/tmp/in", "/tmp/out") env_ok]
             solver0 in
  let w := JuliaWorkerThread_init 0 ("/tmp/in", "/tmp/out") KNone env_ok in
  let s1 := fst (handleThreadFinished (pid w) s) in
  let s2 := fst (handleThreadFinished (pid w) s1) in
  threads s = [(KNone, w)] /\
  handleFinished (obj := nat) w = EmitThreadFinished (pid w) /\
  snd (handleThreadFinished (pid w) s) = Ok tt /\
  threads s1 = [(KNone, w)] /\
  snd (handleThreadFinished (pid w) s1) = Ok tt /\
  threads s2 = [(KNone, w)] /\
  ~ In (DeleteLater w) (trace s2).
Proof.
  vm_compute. repeat split.
  intros Hin.
  repeat (destruct Hin as [Hin|Hin]; [discriminate Hin|]).
  exact Hin.
Qed.

Lemma start_without_pid_witness :
  dict_get pykey_eq_dec (KStr (uuid4 env_ok)) (threads solver1) = None /\
  dict_get pykey_eq_dec KNone
    (threads (fst (spawnThread (IdKey KNone) ("/tmp/in", "/tmp/out") env_ok
                     solver1)))
  = Some (JuliaWorkerThread_init 1 ("/tmp/in", "/tmp/out") KNone env_ok).
Proof.
  split; [reflexivity|].
  destruct (start_without_pid ("/tmp/in", "/tmp/out") env_ok solver1 eq_refl)
    as (_ & _ & Hreg & _).
  exact Hreg.
Defined.

(** * Further facts *)

(** ** Decode: edge cases *)

(** X1. An input of length zero, a string or not, is answered with the
    empty message and the empty-string diagnostic, without raising. *)
Theorem parseInput_zero_length (data : pyobj) (c : Communicator) :
  len data = Ok 0 ->
  parseInput data c =
    (fst (emit sig_stdout [PyStr "[MSG]: empty string was passed, returning."] c),
     Ok []).
Proof.
  intros Hlen. unfold parseInput, bind, of_result. rewrite Hlen. reflexivity.
Qed.

Lemma parseInput_zero_length_witness :
  len (PyBytes "") = Ok 0 /\
  snd (parseInput (PyBytes "") idle_communicator) = Ok [] /\
  emitted (fst (parseInput (PyBytes "") idle_communicator)) =
    [(sig_stdout, [PyStr "[MSG]: empty string was passed, returning."])].
Proof.
  split; [reflexivity|].
  rewrite (parseInput_zero_length (PyBytes "") idle_communicator eq_refl).
  split; reflexivity.
Defined.

(** X2. A non-string input that has a positive length is answered with the
    empty message and a diagnostic that names its type, without raising. *)
Theorem parseInput_sized_non_string (data : pyobj) (n : nat) (c : Communicator) :
  (forall s, data <> PyStr s) ->
  len data = Ok (S n) ->
  parseInput data c =
    (fst (emit sig_stdout
            [PyStr ("[MSG]: Data with type '" ++ type_repr data
                    ++ "' was passed instead of 'str'.")] c),
     Ok []).
Proof.
  intros Hns Hlen. unfold parseInput, bind, of_result. rewrite Hlen.
  cbn [Nat.eqb]. destruct data; try reflexivity.
  exfalso. eapply Hns. reflexivity.
Qed.

Lemma parseInput_sized_non_string_witness :
  (forall s, PyBytes "a=1;" <> PyStr s) /\
  len (PyBytes "a=1;") = Ok 4 /\
  snd (parseInput (PyBytes "a=1;") idle_communicator) = Ok [] /\
  emitted (fst (parseInput (PyBytes "a=1;") idle_communicator)) =
    [(sig_stdout,
      [PyStr "[MSG]: Data with type '<class 'bytes'>' was passed instead of 'str'."])].
Proof.
  assert (Hns : forall s, PyBytes "a=1;" <> PyStr s) by discriminate.
  split; [exact Hns|]. split; [reflexivity|].
  rewrite (parseInput_sized_non_string (PyBytes "a=1;") 3 idle_communicator
             Hns eq_refl).
  split; reflexivity.
Defined.

(** *** Lines without fields *)

Lemma lstrip_blank (s : string) : all_chars isspace s = true -> lstrip s = "".
Proof.
  induction s as [|ch s IH]; [reflexivity|]. cbn.
  intros Hs. apply andb_true_iff in Hs as [-> Hs]. now apply IH.
Qed.

Lemma split_blank_pieces (s : string) :
  all_chars blank_or_semicolon s = true ->
  Forall (fun p => all_chars isspace p = true) (split ";" s).
Proof.
  induction s as [|ch s IH]; cbn.
  - intros _. now repeat constructor.
  - intros Hs. apply andb_true_iff in Hs as [Hch Hs]. specialize (IH Hs).
    destruct (Ascii.eqb ch ";") eqn:Hsep.
    + constructor; [reflexivity | exact IH].
    + unfold blank_or_semicolon in Hch. rewrite Hsep, orb_false_r in Hch.
      destruct (split ";" s) as [|x xs].
      * repeat constructor. cbn. now rewrite Hch.
      * inversion IH; subst.
        constructor; [cbn; rewrite Hch; assumption | assumption].
Qed.

Lemma parse_pairs_blank (kvp pairs : list string) (res : dict string value) :
  Forall (fun p => all_chars isspace p = true) pairs ->
  parse_pairs kvp pairs res = Ok res.
Proof.
  induction 1 as [|p pairs Hp _ IH]; [reflexivity|].
  cbn [parse_pairs]. unfold strip. rewrite (lstrip_blank p Hp). exact IH.
Qed.

(** X3. A non-empty line made of blanks and [";"] only decodes to the empty
    message, and, unlike the empty line, without any diagnostic. *)
Theorem parseInput_blank_line (data : string) (c : Communicator) :
  data <> "" ->
  all_chars blank_or_semicolon data = true ->
  parseInput (PyStr data) c = (c, Ok []).
Proof.
  intros Hne Hblank. unfold parseInput, bind, of_result. cbn [len].
  destruct data as [|ch data]; [congruence|]. cbn [String.length Nat.eqb].
  now rewrite parse_pairs_blank by now apply split_blank_pieces.
Qed.

Lemma parseInput_blank_line_witness :
  " ; ;; " <> "" /\
  all_chars blank_or_semicolon " ; ;; " = true /\
  parseInput (PyStr " ; ;; ") idle_communicator = (idle_communicator, Ok []).
Proof.
  assert (Hne : " ; ;; " <> "") by discriminate.
  split; [exact Hne|]. split; [reflexivity|].
  exact (parseInput_blank_line " ; ;; " idle_communicator Hne eq_refl).
Defined.

(** ** Decode: what a decoded message looks like *)

Lemma split_pieces_free (c sep : ascii) (s : string) :
  contains c s = false -> Forall (fun x => contains c x = false) (split sep s).
Proof.
  induction s as [|ch s IH]; cbn.
  - intros _. now repeat constructor.
  - intros Hs. apply orb_false_iff in Hs as [Hch Hs]. specialize (IH Hs).
    destruct (Ascii.eqb ch sep).
    + constructor; [reflexivity | exact IH].
    + destruct (split sep s) as [|x xs].
      * repeat constructor. cbn. now rewrite Hch.
      * inversion IH; subst. constructor; [cbn; rewrite Hch; assumption | assumption].
Qed.

Lemma split_pieces_no_sep (sep : ascii) (s : string) :
  Forall (fun x => contains sep x = false) (split sep s).
Proof.
  induction s as [|ch s IH]; cbn.
  - now repeat constructor.
  - destruct (Ascii.eqb ch sep) eqn:Hsep.
    + constructor; [reflexivity | exact IH].
    + destruct (split sep s) as [|x xs].
      * repeat constructor. cbn. now rewrite Hsep.
      * inversion IH; subst. constructor; [cbn; rewrite Hsep; assumption | assumption].
Qed.

Lemma lstrip_free (c : ascii) (s : string) :
  contains c s = false -> contains c (lstrip s) = false.
Proof.
  induction s as [|ch s IH]; [trivial|]. cbn [lstrip].
  destruct (isspace ch); [|trivial].
  cbn. intros Hs. apply orb_false_iff in Hs as [_ Hs]. now apply IH.
Qed.

Lemma rstrip_free (c : ascii) (s : string) :
  contains c s = false -> contains c (rstrip s) = false.
Proof.
  induction s as [|ch s IH]; [trivial|].
  cbn [contains]. intros Hs. apply orb_false_iff in Hs as [Hch Hs].
  specialize (IH Hs). cbn [rstrip].
  destruct (rstrip s) as [|d r].
  - destruct (isspace ch); cbn; [reflexivity | now rewrite Hch].
  - change (contains c (String ch (String d r)))
      with (Ascii.eqb ch c || contains c (String d r)).
    now rewrite Hch, IH.
Qed.

Lemma lstrip_start (s : string) : starts_with_space (lstrip s) = false.
Proof.
  induction s as [|ch s IH]; [reflexivity|]. cbn [lstrip].
  destruct (isspace ch) eqn:Hch; [exact IH | exact Hch].
Qed.

Lemma rstrip_start (s : string) :
  starts_with_space s = false -> starts_with_space (rstrip s) = false.
Proof.
  destruct s as [|ch s]; [trivial|]. cbn [starts_with_space rstrip].
  intros Hch. destruct (rstrip s); [rewrite Hch|]; exact Hch.
Qed.

Lemma rstrip_end (s : string) : ends_with_space (rstrip s) = false.
Proof.
  induction s as [|ch s IH]; [reflexivity|]. cbn [rstrip].
  destruct (rstrip s) as [|d r].
  - destruct (isspace ch) eqn:Hch; [reflexivity | exact Hch].
  - exact IH.
Qed.

Lemma ends_with_space_tail (ch : ascii) (s : string) :
  ends_with_space (String ch s) = false -> ends_with_space s = false.
Proof. destruct s; [reflexivity | trivial]. Qed.

Lemma before_free (c sep : ascii) (s : string) :
  contains c s = false -> contains c (before sep s) = false.
Proof.
  induction s as [|ch s IH]; [trivial|]. cbn.
  intros Hs. apply orb_false_iff in Hs as [Hch Hs].
  destruct (Ascii.eqb ch sep); [reflexivity|]. cbn. now rewrite Hch, IH.
Qed.

Lemma before_no_sep (sep : ascii) (s : string) :
  contains sep (before sep s) = false.
Proof.
  induction s as [|ch s IH]; [reflexivity|]. cbn.
  destruct (Ascii.eqb ch sep) eqn:Hsep; [reflexivity|]. cbn. now rewrite Hsep.
Qed.

Lemma before_start (sep : ascii) (s : string) :
  starts_with_space s = false -> starts_with_space (before sep s) = false.
Proof.
  destruct s as [|ch s]; [trivial|]. cbn.
  destruct (Ascii.eqb ch sep); [reflexivity | trivial].
Qed.

Lemma after_free (c sep : ascii) (s : string) :
  contains c s = false -> contains c (after sep s) = false.
Proof.
  induction s as [|ch s IH]; [trivial|]. cbn.
  intros Hs. apply orb_false_iff in Hs as [_ Hs].
  destruct (Ascii.eqb ch sep); [exact Hs | now apply IH].
Qed.

Lemma after_no_sep (sep : ascii) (s : string) :
  count sep s = 1 -> contains sep (after sep s) = false.
Proof.
  induction s as [|ch s IH]; [discriminate|]. cbn.
  destruct (Ascii.eqb ch sep); cbn.
  - intros Hc. injection Hc as Hc. rewrite contains_count, Hc. reflexivity.
  - exact IH.
Qed.

Lemma after_end (sep : ascii) (s : string) :
  ends_with_space s = false -> ends_with_space (after sep s) = false.
Proof.
  induction s as [|ch s IH]; [trivial|].
  intros Hs. apply ends_with_space_tail in Hs. cbn [after].
  destruct (Ascii.eqb ch sep); [exact Hs | now apply IH].
Qed.

Lemma split_single_empty (sep : ascii) (s : string) :
  split sep s = [""] -> s = "".
Proof.
  destruct s as [|ch s]; [trivial|]. cbn.
  destruct (Ascii.eqb ch sep).
  - pose proof (split_length sep s) as Hl. intros Heq.
    injection Heq as Heq. rewrite Heq in Hl. discriminate.
  - destruct (split sep s); discriminate.
Qed.

Lemma last_split_end (sep : ascii) (s : string) :
  ends_with_space s = false ->
  ends_with_space (last (split sep s) "") = false.
Proof.
  induction s as [|ch s IH]; [reflexivity|].
  intros Hs. pose proof (ends_with_space_tail _ _ Hs) as Hs'.
  specialize (IH Hs'). cbn [split].
  pose proof (split_length sep s) as Hl.
  destruct (Ascii.eqb ch sep).
  - destruct (split sep s) as [|x xs]; [discriminate | exact IH].
  - destruct (split sep s) as [|x xs] eqn:Hsp; [discriminate|].
    destruct xs as [|y ys]; [|exact IH].
    cbn [last] in *. destruct x as [|d x].
    + apply split_single_empty in Hsp. subst s. exact Hs.
    + exact IH.
Qed.

Lemma forallb_Forall_free (P : string -> bool) (l : list string) :
  Forall (fun x => P x = true) l -> forallb P l = true.
Proof. intros Hl. apply forallb_forall. now apply Forall_forall. Qed.

Lemma read_value_wire_safe (k v : string) :
  contains ";" k = false -> contains "=" k = false ->
  starts_with_space k = false ->
  contains ";" v = false -> contains "=" v = false ->
  ends_with_space v = false ->
  wire_safe (k, read_value v) = true.
Proof.
  intros Hk1 Hk2 Hk3 Hv1 Hv2 Hv3. unfold wire_safe, read_value. cbn [fst snd].
  rewrite Hk1, Hk2, Hk3. cbn [negb andb].
  destruct (contains "," v) eqn:Hcomma; cbn [snd].
  - rewrite (last_split_end "," v Hv3). cbn [negb]. rewrite andb_true_r.
    apply andb_true_iff. split.
    + apply Nat.leb_le. rewrite split_length.
      rewrite contains_count in Hcomma.
      destruct (count "," v); [discriminate | lia].
    + apply forallb_Forall_free.
      pose proof (split_pieces_free ";" "," v Hv1) as H1.
      pose proof (split_pieces_free "=" "," v Hv2) as H2.
      pose proof (split_pieces_no_sep "," v) as H3.
      rewrite Forall_forall in *. intros x Hx. unfold reserved_free.
      now rewrite (H1 x Hx), (H2 x Hx), (H3 x Hx).
  - unfold reserved_free. now rewrite Hv1, Hv2, Hcomma, Hv3.
Qed.

Lemma entry_wire_safe (p : string) :
  contains ";" p = false -> starts_with_space p = false ->
  ends_with_space p = false -> count "=" p = 1 ->
  wire_safe (entry p) = true.
Proof.
  intros H1 H2 H3 H4. unfold entry. apply read_value_wire_safe.
  - now apply before_free.
  - apply before_no_sep.
  - now apply before_start.
  - now apply after_free.
  - now apply after_no_sep.
  - now apply after_end.
Qed.

Lemma segments_trimmed (data : string) :
  Forall (fun p => contains ";" p = false /\ starts_with_space p = false /\
                   ends_with_space p = false) (segments data).
Proof.
  unfold segments. apply Forall_forall. intros p Hp.
  apply filter_In in Hp as [Hp _]. apply in_map_iff in Hp as (raw & <- & Hraw).
  pose proof (split_pieces_no_sep ";" data) as Hsp.
  rewrite Forall_forall in Hsp. specialize (Hsp raw Hraw).
  unfold strip. repeat split.
  - now apply rstrip_free, lstrip_free.
  - apply rstrip_start, lstrip_start.
  - apply rstrip_end.
Qed.

Section DictFromFacts.
Context {K V : Type}.
Variable eq_dec : forall a b : K, {a = b} + {a <> b}.

Lemma Forall_dict_update_pair (P : K * V -> Prop) (d : dict K V) (k : K) (v : V) :
  Forall P d -> P (k, v) -> Forall P (dict_update eq_dec d k v).
Proof.
  intros Hd Hkv. induction Hd as [|[k' v'] d Hx Hd IH]; cbn.
  - now repeat constructor.
  - destruct (eq_dec k k') as [<-|]; constructor; auto.
Qed.

Lemma dict_from_Forall (P : K * V -> Prop) (l : list (K * V)) (res : dict K V) :
  Forall P res -> Forall P l -> Forall P (dict_from eq_dec res l).
Proof.
  intros Hres Hl. revert res Hres.
  induction Hl as [|[k v] l Hkv Hl IH]; intros res Hres; [exact Hres|].
  apply IH. now apply Forall_dict_update_pair.
Qed.

Lemma dict_from_wf (l : list (K * V)) (res : dict K V) :
  dict_wf res -> dict_wf (dict_from eq_dec res l).
Proof.
  revert res. induction l as [|[k v] l IH]; intros res Hres; [exact Hres|].
  apply IH. now apply dict_update_wf.
Qed.

Lemma dict_get_app (k : K) (a b : dict K V) :
  dict_get eq_dec k (a ++ b)%list =
    match dict_get eq_dec k a with
    | Some v => Some v
    | None => dict_get eq_dec k b
    end.
Proof.
  induction a as [|[k' v'] a IH]; [reflexivity|]. cbn.
  destruct (eq_dec k k'); [reflexivity | exact IH].
Qed.

Lemma dict_from_get (k : K) (l : list (K * V)) (res : dict K V) :
  dict_get eq_dec k (dict_from eq_dec res l) =
    match dict_get eq_dec k (rev l) with
    | Some v => Some v
    | None => dict_get eq_dec k res
    end.
Proof.
  revert res. induction l as [|[k' v'] l IH]; intros res; [reflexivity|].
  change (dict_from eq_dec res ((k', v') :: l))
    with (dict_from eq_dec (dict_update eq_dec res k' v') l).
  rewrite IH. cbn [rev]. rewrite dict_get_app.
  destruct (dict_get eq_dec k (rev l)); [reflexivity|]. cbn.
  destruct (eq_dec k k') as [->|Hne].
  - apply dict_update_get_same.
  - now apply dict_update_get_other.
Qed.
End DictFromFacts.

(** A decoded message has one entry per key, and each of its fields can be
    put on the wire again. *)
Lemma parseInput_result (data : pyobj) (c c' : Communicator)
    (d : dict string value) :
  parseInput data c = (c', Ok d) ->
  dict_wf d /\ Forall (fun kv => wire_safe kv = true) d.
Proof.
  assert (Hnil : dict_wf (@nil (string * value)) /\
                 Forall (fun kv => wire_safe kv = true) (@nil (string * value)))
    by (split; constructor).
  unfold parseInput, bind, of_result.
  destruct (len data) as [n|e]; [|discriminate].
  destruct (n =? 0)%nat.
  - cbn. intros Heq. injection Heq as _ <-. exact Hnil.
  - destruct data as [| |s| | | |];
      try (cbn; intros Heq; injection Heq as _ <-; exact Hnil).
    rewrite parse_pairs_spec. fold (segments s).
    destruct (find malformed (segments s)) as [bad|] eqn:Hfind.
    + destruct (count "=" bad =? 0)%nat; discriminate.
    + intros Heq. injection Heq as _ <-. split.
      * apply dict_from_wf. constructor.
      * apply dict_from_Forall; [constructor|].
        apply Forall_forall. intros kv Hkv.
        apply in_map_iff in Hkv as (p & <- & Hp).
        pose proof (segments_trimmed s) as Htrim.
        rewrite Forall_forall in Htrim. destruct (Htrim p Hp) as (H1 & H2 & H3).
        apply entry_wire_safe; try assumption.
        pose proof (find_none _ _ Hfind p Hp) as Hm.
        unfold malformed in Hm. apply negb_false_iff, Nat.eqb_eq in Hm.
        exact Hm.
Qed.

(** X4. When a line decodes to a message, the message holds each key
    once, and under it the value of the last segment of the line with that
    key: a later segment overwrites the entry of an earlier segment with
    the same key. The keys of the message are the keys of the segments. *)
Theorem decoded_last_segment_wins (s : string) (c c' : Communicator)
    (d : dict string value) :
  parseInput (PyStr s) c = (c', Ok d) ->
  dict_wf d /\
  (forall k,
      dict_get string_dec k d =
      dict_get string_dec k (rev (map entry (segments s)))) /\
  (forall k, In k (keys d) <-> In k (map fst (map entry (segments s)))).
Proof.
  intros Hp.
  assert (Hd : d = dict_from string_dec [] (map entry (segments s))).
  { revert Hp. unfold parseInput, bind, of_result. cbn [len].
    destruct (String.length s =? 0)%nat eqn:Hlen.
    - destruct s as [|ch s]; [|discriminate Hlen].
      cbn. intros Heq. injection Heq as _ <-. reflexivity.
    - rewrite parse_pairs_spec. fold (segments s).
      destruct (find malformed (segments s)) as [bad|].
      + destruct (count "=" bad =? 0)%nat; discriminate.
      + intros Heq. injection Heq as _ <-. reflexivity. }
  assert (Hget : forall k,
            dict_get string_dec k d =
            dict_get string_dec k (rev (map entry (segments s)))).
  { intros k. rewrite Hd, dict_from_get.
    destruct (dict_get string_dec k (rev (map entry (segments s))));
      reflexivity. }
  assert (Hin : forall k (l : dict string value),
            In k (keys l) <-> dict_get string_dec k l <> None).
  { intros k l. induction l as [|[k' v'] l IH]; cbn.
    - split; [intros [] | intros Hn; now apply Hn].
    - destruct (string_dec k k') as [->|Hne].
      + split; [discriminate | now left].
      + rewrite <- IH. split; [intros [E|Hk]; [congruence | exact Hk]
                              | now right]. }
  split; [rewrite Hd; apply dict_from_wf; constructor|].
  split; [exact Hget|].
  intros k. rewrite Hin, Hget, <- Hin. unfold keys.
  rewrite map_rev, <- in_rev. reflexivity.
Qed.

Lemma decoded_last_segment_wins_witness :
  parseInput (PyStr "a=1;b=2;a=3;") idle_communicator =
    (idle_communicator, Ok [("a", VStr "3"); ("b", VStr "2")]) /\
  map entry (segments "a=1;b=2;a=3;") =
    [("a", VStr "1"); ("b", VStr "2"); ("a", VStr "3")] /\
  dict_get string_dec "a" [("a", VStr "3"); ("b", VStr "2")] =
    dict_get string_dec "a" (rev (map entry (segments "a=1;b=2;a=3;"))).
Proof.
  split; [reflexivity|]. split; [reflexivity|].
  exact (proj1 (proj2 (decoded_last_segment_wins "a=1;b=2;a=3;"
                         idle_communicator idle_communicator
                         [("a", VStr "3"); ("b", VStr "2")] eq_refl)) "a").
Defined.

(** X5. In a decoded message no key holds [";"] or ["="] or begins with
    whitespace; a scalar value holds none of [";"], ["="], [","] and does not
    end with whitespace; a list value has at least two elements, each free
    of the three characters, the last one not ending with whitespace. *)
Theorem decoded_fields_clean (data : pyobj) (c c' : Communicator)
    (d : dict string value) :
  parseInput data c = (c', Ok d) ->
  forall k v, In (k, v) d ->
    contains ";" k = false /\ contains "=" k = false /\
    starts_with_space k = false /\
    match v with
    | VStr s => reserved_free s = true /\ ends_with_space s = false
    | VList l =>
        2 <= List.length l /\ Forall (fun x => reserved_free x = true) l /\
        ends_with_space (last l "") = false
    end.
Proof.
  intros Hp k v Hin.
  destruct (parseInput_result data c c' d Hp) as [_ Hsafe].
  rewrite Forall_forall in Hsafe. specialize (Hsafe (k, v) Hin).
  unfold wire_safe in Hsafe. cbn [fst snd] in Hsafe.
  rewrite !andb_true_iff, !negb_true_iff in Hsafe.
  destruct Hsafe as [[[H1 H2] H3] Hv]. repeat split; try assumption.
  destruct v as [s|l]; rewrite !andb_true_iff, ?negb_true_iff in Hv.
  - exact Hv.
  - destruct Hv as [[Hlen Hall] Hend]. repeat split; try assumption.
    + now apply Nat.leb_le.
    + apply Forall_forall. rewrite forallb_forall in Hall. exact Hall.
Qed.

Lemma decoded_fields_clean_witness :
  parseInput (PyStr " pid = j1 ;args=/in, /out") idle_communicator =
    (idle_communicator,
     Ok [("pid ", VStr " j1"); ("args", VList ["/in"; " /out"])]) /\
  (reserved_free " j1" = true /\ ends_with_space " j1" = false).
Proof.
  split; [reflexivity|].
  exact (proj2 (proj2 (proj2
    (decoded_fields_clean (PyStr " pid = j1 ;args=/in, /out") idle_communicator
       idle_communicator
       [("pid ", VStr " j1"); ("args", VList ["/in"; " /out"])] eq_refl
       "pid " (VStr " j1") (or_introl eq_refl))))).
Defined.

(** X6. What the decoder returns can be encoded and decoded again without
    loss: for every input that decodes to a message [d], decoding the
    encoding of [d] gives [d]. *)
Theorem decode_reencode (data : pyobj) (c c' : Communicator)
    (d : dict string value) :
  parseInput data c = (c', Ok d) ->
  forall c2, snd (parseInput (PyStr (Encode_spec d)) c2) = Ok d.
Proof.
  intros Hp c2. destruct (parseInput_result data c c' d Hp) as [Hwf Hsafe].
  rewrite roundtrip_fields.
  - f_equal. apply (dict_from_fresh string_dec d []). exact Hwf.
  - apply forallb_forall. now apply Forall_forall.
Qed.

Lemma decode_reencode_witness :
  parseInput (PyStr " pid = j1 ;args=/in, /out") idle_communicator =
    (idle_communicator,
     Ok [("pid ", VStr " j1"); ("args", VList ["/in"; " /out"])]) /\
  Encode_spec [("pid ", VStr " j1"); ("args", VList ["/in"; " /out"])] =
    "pid = j1;args=/in, /out;" /\
  snd (parseInput (PyStr "pid = j1;args=/in, /out;") idle_communicator) =
    Ok [("pid ", VStr " j1"); ("args", VList ["/in"; " /out"])].
Proof.
  split; [reflexivity|]. split; [reflexivity|].
  exact (decode_reencode (PyStr " pid = j1 ;args=/in, /out") idle_communicator
           idle_communicator
           [("pid ", VStr " j1"); ("args", VList ["/in"; " /out"])] eq_refl
           idle_communicator).
Defined.

(** X7. Encoding an ordered list of fields in which keys may repeat, and
    decoding it, gives a message in which every key has the value of its
    last field: provided no key holds [";"] or ["="] or begins with
    whitespace, scalar values are free of the reserved characters and do
    not end with whitespace, and list values have at least two elements free
    of the reserved characters, the last not ending with whitespace. *)
Theorem encode_decode_last_wins (fields : list (string * value))
    (c : Communicator) :
  forallb wire_safe fields = true ->
  exists d,
    snd (parseInput (PyStr (Encode_spec fields)) c) = Ok d /\
    dict_wf d /\
    forall k, dict_get string_dec k d = dict_get string_dec k (rev fields).
Proof.
  intros Hsafe. exists (dict_from string_dec [] fields).
  split; [now apply roundtrip_fields|]. split.
  - apply dict_from_wf. constructor.
  - intros k. rewrite dict_from_get.
    destruct (dict_get string_dec k (rev fields)); reflexivity.
Qed.

Lemma encode_decode_last_wins_witness :
  forallb wire_safe [("a", VStr "1"); ("b", VStr ""); ("a", VStr "2")] = true /\
  exists d,
    snd (parseInput
           (PyStr (Encode_spec [("a", VStr "1"); ("b", VStr ""); ("a", VStr "2")]))
           idle_communicator) = Ok d /\
    dict_get string_dec "a" d = Some (VStr "2").
Proof.
  split; [reflexivity|].
  destruct (encode_decode_last_wins
              [("a", VStr "1"); ("b", VStr ""); ("a", VStr "2")]
              idle_communicator eq_refl) as (d & Hd & _ & Hget).
  exists d. split; [exact Hd|]. rewrite Hget. reflexivity.
Defined.

(** ** The worker: how a run ends *)

Section RunFacts.
Context {obj : Type} `{External obj}.
Implicit Types (env : Env obj) (w : JuliaWorkerThread).

(** X8. The files a run saves are the first [k] of the eight array files
    of the output directory, in the order of [DATA]. When the body ends
    normally all eight are saved and no signal is emitted. When the body
    raised, fewer than eight are saved, the files saved before stay, and
    the run ends with its one emission of [stderr], carrying the id of the
    worker and the exception, after prints and saves only; if a file was
    saved before, the exception is the one [np.save] raised at the next
    file. *)
Theorem run_saves_in_order env w :
  let files :=
    map (fun name => path_join (snd (params w)) (name ++ ".npy")) array_names in
  let print_or_save (ev : wevent obj) :=
    (exists text, ev = Print (pid w) text) \/
    (exists file data, ev = Save file data) in
  exists k,
    map fst (saves (run env w)) = firstn k files /\
    ((snd (run_body env w []) = Ok tt /\ k = 8 /\
      Forall print_or_save (run env w))
     \/
     (exists e evs,
         snd (run_body env w []) = Raise e /\ k < 8 /\
         run env w = (evs ++ [EmitStderr (pid w) e])%list /\
         Forall print_or_save evs /\
         (0 < k -> exists data, save env (nth k files "") data = Raise e))).
Proof.
  cbv zeta. unfold run, run_body. destruct (params w) as [in_dir out_dir].
  cbn [snd]. unfold bind, of_result, print, modify, raise, ret.
  assert (Hps : forall evs : list (wevent obj),
            Forall (fun ev => (exists text, ev = Print (pid w) text) \/
                              (exists file data, ev = Save file data)) evs ->
            forall text,
            Forall (fun ev => (exists text, ev = Print (pid w) text) \/
                              (exists file data, ev = Save file data))
              (Print (pid w) text :: evs)).
  { intros evs Hevs text. constructor; [left; eexists; reflexivity | exact Hevs]. }
  destruct (path_exists env in_dir); cbn [negb];
    [|exists 0; split; [reflexivity|]; right;
      exists (Exception ("Path " ++ in_dir ++ " does not exists")), [];
      split; [reflexivity|]; split; [lia|]; split; [reflexivity|];
      split; [constructor | intros Hk; inversion Hk]].
  destruct (path_exists env out_dir); cbn [negb];
    [|exists 0; split; [reflexivity|]; right;
      exists (Exception ("Path " ++ out_dir ++ " does not exists")), [];
      split; [reflexivity|]; split; [lia|]; split; [reflexivity|];
      split; [constructor | intros Hk; inversion Hk]].
  destruct (solve env in_dir) as [res|e];
    [|exists 0; split; [reflexivity|]; right; eexists e, _;
      split; [reflexivity|]; split; [lia|]; split; [reflexivity|];
      split; [repeat apply Hps; constructor | intros Hk; inversion Hk]].
  destruct res as [|r0 [|r1 [|r2 [|r3 [|r4 [|r5 [|r6 [|r7 [|r8 [|r9 rest]]]]]]]]]];
    cbn [index nth_error];
    try solve [exists 0; split; [reflexivity|]; right;
               eexists (IndexError "tuple index out of range"), _;
               split; [reflexivity|]; split; [lia|]; split; [reflexivity|];
               split; [repeat apply Hps; constructor | intros Hk; inversion Hk]].
  match goal with
  | |- context [save_all ?e ?o ?D ?ks ?ev] =>
      destruct (save_all_prefix e o D ks ev) as (k & Hfst & Hok & Herr);
      destruct (save_all e o D ks ev) as [evs1 [[]|e1]]
  end; cbn [fst snd] in Hfst, Hok, Herr; subst evs1.
  - rewrite (Hok eq_refl). exists 8. split; [reflexivity|]. left.
    split; [reflexivity|]. split; [reflexivity|]. cbn.
    repeat (apply Forall_cons;
            [solve [left; eexists; reflexivity
                   | right; eexists _, _; reflexivity]|]).
    apply Forall_nil.
  - destruct (Herr e1 eq_refl) as (Hlt & key & Hkey & Hsave). cbn in Hlt.
    exists k.
    destruct k as [|[|[|[|[|[|[|[|k]]]]]]]]; try lia;
      (split; [reflexivity|]); right; eexists e1, _;
      (split; [reflexivity|]); (split; [lia|]); (split; [reflexivity|]);
      (split;
       [cbn; repeat (apply Forall_cons;
                [solve [left; eexists; reflexivity
                       | right; eexists _, _; reflexivity]|]);
        apply Forall_nil
       | intros _; cbn in Hkey; injection Hkey as <-;
         eexists; exact Hsave]).
Qed.
(** X9. A run whose input directory, or else whose output directory, does
    not exist does nothing but emit [stderr] with the message that names the
    missing path: nothing is printed, the solver is not called, nothing is
    saved. *)
Theorem run_missing_path env w :
  (path_exists env (fst (params w)) = false ->
   run env w =
     [EmitStderr (pid w)
        (Exception ("Path " ++ fst (params w) ++ " does not exists"))]) /\
  (path_exists env (fst (params w)) = true ->
   path_exists env (snd (params w)) = false ->
   run env w =
     [EmitStderr (pid w)
        (Exception ("Path " ++ snd (params w) ++ " does not exists"))]).
Proof.
  unfold run, run_body. destruct (params w) as [in_dir out_dir].
  cbn [fst snd]. unfold bind, of_result, print, modify, raise, ret.
  split.
  - intros ->. reflexivity.
  - intros -> ->. reflexivity.
Qed.

(** X10. When both paths exist and the solver raises, the run emits
    [stderr] with the exception of the solver, unchanged, after its two
    first prints; when the solver returns fewer than ten results, the run
    emits [stderr] with an [IndexError] after four prints. Nothing is saved
    in either case. *)
Theorem run_solver_failure env w :
  path_exists env (fst (params w)) = true ->
  path_exists env (snd (params w)) = true ->
  (forall e, solve env (fst (params w)) = Raise e ->
     run env w =
       [Print (pid w) "Working..."; Print (pid w) "Priming Solver";
        EmitStderr (pid w) e]) /\
  (forall res, solve env (fst (params w)) = Ok res -> List.length res < 10 ->
     run env w =
       [Print (pid w) "Working..."; Print (pid w) "Priming Solver";
        Print (pid w)
          ("[STATUS]: Computation Completed - "
           ++ fstr (fsub (time_et env) (time_st env)) ++ " secs");
        Print (pid w) "[STATUS]: Collecting Results";
        EmitStderr (pid w) (IndexError "tuple index out of range")]).
Proof.
  unfold run, run_body. destruct (params w) as [in_dir out_dir].
  cbn [fst snd]. unfold bind, of_result, print, modify, raise, ret.
  intros -> ->. cbn [negb]. split.
  - intros e ->. reflexivity.
  - intros res -> Hlen.
    destruct res as [|r0 [|r1 [|r2 [|r3 [|r4 [|r5 [|r6 [|r7 [|r8 [|r9 rest]]]]]]]]]];
      cbn [index nth_error]; try reflexivity.
    cbn in Hlen. lia.
Qed.
End RunFacts.

Lemma run_missing_path_witness :
  path_exists env_no_input (fst (params worker_job1)) = false /\
  run env_no_input worker_job1 =
    [EmitStderr "job1" (Exception "Path /tmp/in does not exists")].
Proof.
  split; [reflexivity|].
  exact (proj1 (run_missing_path env_no_input worker_job1) eq_refl).
Defined.

Lemma run_solver_failure_witness :
  path_exists env_solver_fails (fst (params worker_job1)) = true /\
  path_exists env_solver_fails (snd (params worker_job1)) = true /\
  run env_solver_fails worker_job1 =
    [Print "job1" "Working..."; Print "job1" "Priming Solver";
     EmitStderr "job1" (SolverError "singular matrix")] /\
  saves (run env_short_result worker_job1) = [].
Proof.
  split; [reflexivity|]. split; [reflexivity|]. split.
  - exact (proj1 (run_solver_failure env_solver_fails worker_job1 eq_refl eq_refl)
             (SolverError "singular matrix") eq_refl).
  - rewrite (proj2 (run_solver_failure env_short_result worker_job1
                      eq_refl eq_refl) [10; 11; 12] eq_refl
               ltac:(cbn; lia)).
    reflexivity.
Defined.

(** ** The supervisor: kill, error, start *)

Section RegistryFacts.
Context {obj : Type} `{External obj}.
Implicit Types (s : JuliaSolver obj) (k : pykey) (env : Env obj).
Implicit Types (w t : JuliaWorkerThread).

Ltac step_monad :=
  cbv beta iota delta
    [bind gets ret raise modify of_result set_threads record fresh slot].

(** X11. Killing a registered id terminates its worker and no other,
    removes its entry and leaves every other entry as it was, and sends one
    line, the confirmation; it does not raise. *)
Theorem kill_registered k t s :
  dict_wf (threads s) ->
  dict_get pykey_eq_dec k (threads s) = Some t ->
  exists s',
    killThread (IdKey k) s = (s', Ok tt) /\
    dict_get pykey_eq_dec k (threads s') = None /\
    (forall k', k' <> k ->
       dict_get pykey_eq_dec k' (threads s') = dict_get pykey_eq_dec k' (threads s)) /\
    trace s' = (trace s ++ [Terminate t])%list /\
    sent_lines s' =
      (sent_lines s ++
       [status_line false
          (Some ("[ACTION] Thread<" ++ str_of_key k ++ "> Terminated")%string)
          true (key_str k)])%list.
Proof.
  intros Hwf Hg. rewrite killThread_eq, Hg. eexists. split; [reflexivity|].
  cbn [threads trace with_line with_trace with_threads].
  split; [now apply dict_remove_get_same|].
  split; [intros k' Hne; now apply dict_remove_get_other|].
  split; reflexivity.
Qed.

(** X12. The error event of a worker always makes its handler raise: for an
    id that is not registered, a [KeyError], with the state unchanged and
    no line sent; for a registered id, the exception of the worker wrapped,
    after the entry is removed, the handle released and the failure line
    sent. *)
Theorem error_event_raises (id : string) (e : exn) s :
  (dict_get pykey_eq_dec (KStr id) (threads s) = None ->
   handleThreadError (id, e) s = (s, Raise (KeyError (KStr id)))) /\
  (forall t,
     dict_wf (threads s) ->
     dict_get pykey_eq_dec (KStr id) (threads s) = Some t ->
     let s' := fst (handleThreadError (id, e) s) in
     snd (handleThreadError (id, e) s) = Raise (ExceptionOf e) /\
     dict_get pykey_eq_dec (KStr id) (threads s') = None /\
     trace s' = (trace s ++ [DeleteLater t])%list /\
     sent_lines s' = (sent_lines s ++ [failure_line id])%list).
Proof.
  split.
  - intros Hg. now rewrite handleThreadError_eq, Hg.
  - intros t Hwf Hg. cbv zeta. rewrite handleThreadError_eq, Hg.
    cbn [fst snd threads trace with_line with_trace with_threads].
    split; [reflexivity|]. split; [now apply dict_remove_get_same|].
    split; reflexivity.
Qed.

(** X13. Every status line the supervisor sends is the encoding of the four
    fields [failed], [text], [log], [pid], in this order, followed by a
    newline; sending it changes neither the registry nor the thread
    objects, and does not raise. *)
Theorem logData_envelope (failed : bool) (text : option string) (log : bool)
    (thread_id : option string) s :
  exists s',
    logData failed text log thread_id s = (s', Ok tt) /\
    threads s' = threads s /\ trace s' = trace s /\
    next_oid s' = next_oid s /\
    sent_lines s' =
      (sent_lines s ++
       [(Encode_spec
           [ ("failed", VStr (lower_bool failed));
             ("text", VStr match text with None => "none" | Some t => t end);
             ("log", VStr (lower_bool log));
             ("pid", VStr match thread_id with None => "none" | Some p => p end) ]
         ++ nl)%string])%list.
Proof.
  rewrite logData_eq, status_line_Encode_spec. eexists.
  split; [reflexivity|]. repeat split.
Qed.

(** *** A start command, step by step *)

Lemma with_line_threads s (line : string) :
  threads (with_line s line) = threads s.
Proof. reflexivity. Qed.

Lemma spawnThread_eq k (args : string * string) env s :
  spawnThread (IdKey k) args env s =
    deliver (run env (JuliaWorkerThread_init (next_oid s) args k env))
      (registered_state k args env s).
Proof.
  unfold spawnThread. step_monad. rewrite logData_eq. step_monad.
  cbn [threads with_line]. unfold registered_state, dict_mem.
  destruct (dict_get pykey_eq_dec k (threads s)) as [old|] eqn:Hg; step_monad.
  - rewrite logData_eq. step_monad. rewrite killThread_eq.
    cbn [threads with_line]. rewrite Hg. step_monad.
    cbn [threads communicator next_oid trace with_line with_trace with_threads].
    unfold with_lines, spawn_lines. cbn [fold_left].
    cbn [threads communicator next_oid trace with_line with_trace with_threads].
    rewrite <- app_assoc. reflexivity.
  - cbn [threads communicator next_oid trace with_line with_trace with_threads].
    rewrite (dict_remove_absent pykey_eq_dec k (threads s) Hg).
    reflexivity.
Qed.

Lemma deliver_ok env w s :
  snd (run_body env w []) = Ok tt ->
  deliver (run env w) s = (with_trace s (map Worker (run env w)), Ok tt).
Proof.
  intros Hok.
  destruct (run_cases env w) as (evs & Hq & [[_ ->]|(e & Herr & _)]).
  - rewrite <- (app_nil_r evs) at 1. rewrite (deliver_quiet _ _ _ _ Hq).
    reflexivity.
  - rewrite Hok in Herr. discriminate.
Qed.

Lemma deliver_failed env w s (e : exn) t :
  snd (run_body env w []) = Raise e ->
  dict_get pykey_eq_dec (KStr (pid w)) (threads s) = Some t ->
  deliver (run env w) s =
    (with_trace
       (with_line
          (with_trace
             (with_threads (with_trace s (map Worker (run env w)))
                (dict_remove pykey_eq_dec (KStr (pid w)) (threads s)))
             [DeleteLater t])
          (failure_line (pid w)))
       [Unhandled (ExceptionOf e)],
     Ok tt).
Proof.
  intros Herr Hg.
  destruct (run_cases env w) as (evs & Hq & [[Hok _]|(e' & Herr' & ->)]).
  - rewrite Hok in Herr. discriminate.
  - rewrite Herr in Herr'. injection Herr' as <-.
    rewrite (deliver_quiet _ _ _ _ Hq). cbn [deliver dispatch]. step_monad.
    rewrite handleThreadError_eq. cbn [threads with_trace]. rewrite Hg.
    step_monad. rewrite map_app. unfold with_trace, with_threads, with_line.
    cbn [threads communicator next_oid trace map].
    rewrite <- !app_assoc. reflexivity.
Qed.

Lemma dict_remove_appended k w (d : dict pykey JuliaWorkerThread) :
  dict_get pykey_eq_dec k d = None ->
  dict_remove pykey_eq_dec k (d ++ [(k, w)])%list = d.
Proof.
  induction d as [|[k' v'] d IH]; cbn.
  - intros _. destruct (pykey_eq_dec k k); [reflexivity | contradiction].
  - destruct (pykey_eq_dec k k'); [discriminate|]. intros Hg. now rewrite IH.
Qed.

(** X14. A start command for an id that is not registered, whose run ends
    normally, returns normally with the worker registered under the id, at
    the end of the registry, although its run is over: the run emits no
    finished event. One worker is created, none is terminated or released,
    and one line is sent, the announcement of the spawn. *)
Theorem start_success_stays_registered k (args : string * string) env s :
  dict_get pykey_eq_dec k (threads s) = None ->
  snd (run_body env (JuliaWorkerThread_init (next_oid s) args k env) []) = Ok tt ->
  let new := JuliaWorkerThread_init (next_oid s) args k env in
  let s' := fst (spawnThread (IdKey k) args env s) in
  snd (spawnThread (IdKey k) args env s) = Ok tt /\
  threads s' = (threads s ++ [(k, new)])%list /\
  dict_get pykey_eq_dec k (threads s') = Some new /\
  trace s' = (trace s ++ Create new :: map Worker (run env new))%list /\
  sent_lines s' =
    (sent_lines s ++
     [status_line false (Some "[ACTION] Spawning Thread") true None])%list.
Proof.
  intros Hg Hok new s'. subst s'. rewrite spawnThread_eq. fold new.
  rewrite (deliver_ok env new _ Hok). cbn [fst snd].
  unfold registered_state, dict_mem. rewrite Hg. fold new.
  cbn [threads trace with_trace sent_lines communicator with_lines spawn_lines
       fold_left with_line written].
  rewrite (dict_remove_absent pykey_eq_dec k (threads s) Hg).
  assert (Hup : dict_update pykey_eq_dec (threads s) k new
                = (threads s ++ [(k, new)])%list)
    by (apply dict_update_fresh;
        now apply (proj1 (dict_get_None pykey_eq_dec k (threads s)))).
  split; [reflexivity|]. split; [exact Hup|].
  split; [apply dict_update_get_same|].
  split; [now rewrite <- !app_assoc | reflexivity].
Qed.

(** X15. A start command for a string id whose run raises returns normally,
    but leaves the job unregistered: the registry is the one before the
    command without this id, the new worker is released, the last line sent
    is the failure line with [failed=true], and the exception of the run,
    wrapped, is left unhandled by the error slot. *)
Theorem start_failure_unregisters (id : string) (args : string * string) env s
    (e : exn) :
  dict_wf (threads s) ->
  snd (run_body env
         (JuliaWorkerThread_init (next_oid s) args (KStr id) env) []) = Raise e ->
  let new := JuliaWorkerThread_init (next_oid s) args (KStr id) env in
  let s' := fst (spawnThread (IdKey (KStr id)) args env s) in
  snd (spawnThread (IdKey (KStr id)) args env s) = Ok tt /\
  threads s' = dict_remove pykey_eq_dec (KStr id) (threads s) /\
  dict_get pykey_eq_dec (KStr id) (threads s') = None /\
  (exists before,
      trace s' = (before ++ [DeleteLater new; Unhandled (ExceptionOf e)])%list) /\
  last (sent_lines s') "" = failure_line id.
Proof.
  intros Hwf Herr new s'. subst s'. rewrite spawnThread_eq. fold new.
  assert (Hreg : dict_get pykey_eq_dec (KStr (pid new))
                   (threads (registered_state (KStr id) args env s)) = Some new)
    by apply dict_update_get_same.
  rewrite (deliver_failed env new _ e new Herr Hreg). cbn [fst snd].
  assert (Habs : dict_get pykey_eq_dec (KStr id)
                   (dict_remove pykey_eq_dec (KStr id) (threads s)) = None)
    by now apply dict_remove_get_same.
  assert (Hth : dict_remove pykey_eq_dec (KStr (pid new))
                  (threads (registered_state (KStr id) args env s))
                = dict_remove pykey_eq_dec (KStr id) (threads s)).
  { unfold registered_state. cbn [threads]. fold new. cbn [pid new JuliaWorkerThread_init].
    rewrite dict_update_fresh
      by now apply (proj1 (dict_get_None pykey_eq_dec (KStr id)
                             (dict_remove pykey_eq_dec (KStr id) (threads s)))).
    now apply dict_remove_appended. }
  cbn [threads trace with_trace with_line with_threads sent_lines communicator
       written].
  split; [reflexivity|]. split; [exact Hth|].
  split; [rewrite Hth; exact Habs|]. split.
  - match goal with
    | |- exists before, ((?T ++ [?a]) ++ [?b])%list = _ =>
        exists T; now rewrite <- app_assoc
    end.
  - apply last_last.
Qed.
End RegistryFacts.

Lemma kill_registered_witness :
  dict_wf (threads solver1) /\
  dict_get pykey_eq_dec (KStr "job1") (threads solver1) = Some worker_job1 /\
  exists s',
    killThread (IdKey (KStr "job1")) solver1 = (s', Ok tt) /\
    threads s' = [] /\
    trace s' = (trace solver1 ++ [Terminate worker_job1])%list.
Proof.
  assert (Hwf : dict_wf (threads solver1))
    by (repeat constructor; simpl; tauto).
  split; [exact Hwf|]. split; [reflexivity|].
  destruct (kill_registered (KStr "job1") worker_job1 solver1 Hwf eq_refl)
    as (s' & Hk & _ & _ & Htr & _).
  exists s'. split; [exact Hk|]. split; [|exact Htr].
  rewrite killThread_eq in Hk. injection Hk as <-. reflexivity.
Defined.

Lemma error_event_raises_witness :
  dict_get pykey_eq_dec (KStr "job2") (threads solver1) = None /\
  handleThreadError ("job2", SolverError "singular matrix") solver1 =
    (solver1, Raise (KeyError (KStr "job2"))).
Proof.
  split; [reflexivity|].
  exact (proj1 (error_event_raises "job2" (SolverError "singular matrix") solver1)
           eq_refl).
Defined.

Lemma start_success_stays_registered_witness :
  dict_get pykey_eq_dec (KStr "job1") (threads solver0) = None /\
  snd (run_body env_ok worker_job1 []) = Ok tt /\
  threads solver1 = [(KStr "job1", worker_job1)].
Proof.
  split; [reflexivity|]. split; [reflexivity|].
  destruct (start_success_stays_registered (KStr "job1") ("/tmp/in", "/tmp/out")
              env_ok solver0 eq_refl eq_refl) as (_ & Hth & _).
  exact Hth.
Defined.

Lemma start_failure_unregisters_witness :
  dict_wf (threads solver1) /\
  snd (run_body env_solver_fails
         (JuliaWorkerThread_init (next_oid solver1) ("/tmp/in", "/tmp/out")
            (KStr "job1") env_solver_fails) [])
    = Raise (SolverError "singular matrix") /\
  threads (step solver1 start_job1_failing) = [].
Proof.
  assert (Hwf : dict_wf (threads solver1))
    by (repeat constructor; simpl; tauto).
  split; [exact Hwf|]. split; [reflexivity|].
  destruct (start_failure_unregisters "job1" ("/tmp/in", "/tmp/out")
              env_solver_fails solver1 (SolverError "singular matrix") Hwf eq_refl)
    as (_ & Hth & _).
  exact Hth.
Defined.

(** ** The command interpreter *)

Lemma parseInput_str_state (data : string) (c : Communicator) :
  data <> "" -> fst (parseInput (PyStr data) c) = c.
Proof.
  intros Hne. unfold parseInput, bind, of_result. cbn [len].
  destruct data as [|ch data]; [congruence | reflexivity].
Qed.

Section CommandFacts.
Context {obj : Type} `{External obj} `{Printing}.
Implicit Types (s : JuliaSolver obj) (env : Env obj).
Implicit Type data : dict string value.

Ltac step_command :=
  unfold handleListenerInput;
  cbv beta iota delta [bind gets ret raise modify of_result];
  rewrite logData_eq;
  cbv beta iota delta [bind gets ret raise modify of_result].

(** X16. A message whose action is absent, is a list, or is a string other
    than ["kill"] and ["start"] is rejected with an exception that names the
    action found; only the line that announces the message is sent, and the
    registry and the thread objects are untouched. *)
Theorem invalid_action_rejected data env s :
  match dict_get string_dec "action" data with
  | Some (VStr a) => a <> "kill" /\ a <> "start"
  | _ => True
  end ->
  handleListenerInput data env s =
    (with_line s (received_line data),
     Raise (Exception
              ("[ERROR] Invalid actions." ++ nl ++ tab
               ++ "Expected value in ['kill', 'start'] got "
               ++ str_of_field (dict_get string_dec "action" data)))).
Proof.
  intros Hact. step_command.
  assert (Hno : existsb
                  (String.eqb (str_of_field (dict_get string_dec "action" data)))
                  ["kill"; "start"] = false).
  { destruct (dict_get string_dec "action" data) as [[a|l]|]; cbn [str_of_field].
    - destruct Hact as [Hk Hs]. cbn [existsb].
      apply String.eqb_neq in Hk, Hs. now rewrite Hk, Hs.
    - reflexivity.
    - reflexivity. }
  rewrite Hno. reflexivity.
Qed.

(** X17. A start command spawns nothing unless [args[0]] and [args[1]] both
    exist as paths: when the arguments are absent or too short, or one of
    the two paths does not exist, the handler raises, and all it has done is
    to send the line that announces the message. *)
Theorem start_without_paths_rejected data env s :
  dict_get string_dec "action" data = Some (VStr "start") ->
  (forall p0 p1,
     subscript (dict_get string_dec "args" data) 0 = Ok p0 ->
     subscript (dict_get string_dec "args" data) 1 = Ok p1 ->
     path_exists env p0 && path_exists env p1 = false) ->
  exists e,
    handleListenerInput data env s = (with_line s (received_line data), Raise e).
Proof.
  intros Hact Hbad. step_command. rewrite Hact. cbn [str_of_field].
  cbn [existsb String.eqb Ascii.eqb Bool.eqb negb orb andb].
  destruct (subscript (dict_get string_dec "args" data) 0) as [p0|e0];
    [|eexists; reflexivity].
  destruct (subscript (dict_get string_dec "args" data) 1) as [p1|e1] eqn:Hs1.
  - specialize (Hbad p0 p1 eq_refl eq_refl).
    destruct (path_exists env p0) eqn:He0; cbn [negb]; [|eexists; reflexivity].
    cbn in Hbad. rewrite Hbad. cbn [negb]. eexists. reflexivity.
  - destruct (path_exists env p0) eqn:He0; cbn [negb]; eexists; reflexivity.
Qed.


(** X18. A kill or start command whose [pid] field held a comma, and was
    therefore decoded to a list, raises a [TypeError]: the kill at once, the
    start, when both paths exist, after the announcement of the spawn. No
    entry of the registry changes and no worker is created. *)
Theorem list_pid_raises data env s (l : list string) :
  dict_get string_dec "pid" data = Some (VList l) ->
  (dict_get string_dec "action" data = Some (VStr "kill") ->
   handleListenerInput data env s =
     (with_line s (received_line data),
      Raise (TypeError "unhashable type: 'list'"))) /\
  (forall p0 p1,
     dict_get string_dec "action" data = Some (VStr "start") ->
     subscript (dict_get string_dec "args" data) 0 = Ok p0 ->
     subscript (dict_get string_dec "args" data) 1 = Ok p1 ->
     path_exists env p0 = true -> path_exists env p1 = true ->
     handleListenerInput data env s =
       (with_line (with_line s (received_line data))
          (status_line false (Some "[ACTION] Spawning Thread") true None),
        Raise (TypeError "unhashable type: 'list'"))).
Proof.
  intros Hpid. split.
  - intros Hact. step_command. rewrite Hact, Hpid. reflexivity.
  - intros p0 p1 Hact Hs0 Hs1 He0 He1. step_command.
    rewrite Hact, Hpid, Hs0, Hs1, He0, He1. cbn [str_of_field id_of_field].
    cbn [existsb String.eqb Ascii.eqb Bool.eqb negb orb andb].
    unfold spawnThread. cbv beta iota delta [bind]. rewrite logData_eq.
    reflexivity.
Qed.

(** X19. The line [action=kill;pid=<id>;], for an id free of the reserved
    characters that does not end with whitespace, decodes to the message of
    its two fields, and this message makes the supervisor kill the job
    [<id>]: when the job is registered, its worker is terminated, its entry
    removed, and two lines are sent, the announcement and the
    confirmation. *)
Theorem kill_line_kills (id : string) (c : Communicator) env s t :
  reserved_free id = true -> ends_with_space id = false ->
  dict_wf (threads s) ->
  dict_get pykey_eq_dec (KStr id) (threads s) = Some t ->
  let data := [("action", VStr "kill"); ("pid", VStr id)] in
  parseInput (PyStr ("action=kill;pid=" ++ id ++ ";")) c = (c, Ok data) /\
  exists s',
    handleListenerInput data env s = (s', Ok tt) /\
    dict_get pykey_eq_dec (KStr id) (threads s') = None /\
    trace s' = (trace s ++ [Terminate t])%list /\
    sent_lines s' =
      (sent_lines s ++
       [received_line data;
        status_line false (Some ("[ACTION] Thread<" ++ id ++ "> Terminated")%string)
          true (Some id)])%list.
Proof.
  intros Hid Hend Hwf Hg data. split.
  - assert (Hline : "action=kill;pid=" ++ id ++ ";" = Encode_spec data)
      by (rewrite Encode_spec_wire; cbn;
          rewrite ?append_empty_r, ?append_assoc; reflexivity).
    assert (Hpid : wire_safe ("pid", VStr id) = true)
      by (unfold wire_safe; cbn [fst snd]; rewrite Hid, Hend; reflexivity).
    assert (Hsafe : forallb wire_safe data = true)
      by (unfold data; cbn [forallb]; rewrite Hpid; reflexivity).
    pose proof (roundtrip_fields data c Hsafe) as Hrt.
    rewrite <- Hline in Hrt.
    pose proof (parseInput_str_state ("action=kill;pid=" ++ id ++ ";") c
                  ltac:(discriminate)) as Hst.
    destruct (parseInput (PyStr ("action=kill;pid=" ++ id ++ ";")) c) as [c' r].
    cbn [fst snd] in *. subst c' r. reflexivity.
  - step_command. cbn [dict_get data str_of_field id_of_field].
    cbn [existsb String.eqb Ascii.eqb Bool.eqb negb orb andb].
    destruct (string_dec "action" "action") as [_|Hn]; [|contradiction].
    destruct (string_dec "pid" "action") as [Hn|_]; [discriminate|].
    destruct (string_dec "pid" "pid") as [_|Hn]; [|contradiction].
    cbn [str_of_field id_of_field existsb String.eqb Ascii.eqb Bool.eqb negb
         orb andb].
    rewrite killThread_eq. cbn [threads with_line]. rewrite Hg.
    eexists. split; [reflexivity|].
    cbn [threads trace with_line with_trace with_threads sent_lines
         communicator written].
    split; [now apply dict_remove_get_same|]. split; [reflexivity|].
    rewrite <- app_assoc. reflexivity.
Qed.

(** X20. The line [action=start;pid=<id>;args=<in>,<out>;], for an id and
    two paths free of the reserved characters, the id and the output path
    not ending with whitespace, decodes to the message of its three fields;
    when both paths exist, this message makes the supervisor send the
    announcement and then run [__spawnThread] for [<id>] on the two paths. *)
Theorem start_line_spawns (id in_dir out_dir : string) (c : Communicator)
    env s :
  reserved_free id = true -> ends_with_space id = false ->
  reserved_free in_dir = true -> reserved_free out_dir = true ->
  ends_with_space out_dir = false ->
  path_exists env in_dir = true -> path_exists env out_dir = true ->
  let data :=
    [("action", VStr "start"); ("pid", VStr id);
     ("args", VList [in_dir; out_dir])] in
  parseInput
    (PyStr ("action=start;pid=" ++ id ++ ";args=" ++ in_dir ++ "," ++ out_dir
            ++ ";")) c = (c, Ok data) /\
  handleListenerInput data env s =
    spawnThread (IdKey (KStr id)) (in_dir, out_dir) env
      (with_line s (received_line data)).
Proof.
  intros Hid Hend Hin Hout Hoend Hein Heout data. split.
  - set (line := "action=start;pid=" ++ id ++ ";args=" ++ in_dir ++ ","
                 ++ out_dir ++ ";").
    assert (Hline : line = Encode_spec data).
    { rewrite Encode_spec_wire. unfold line. cbn.
      rewrite ?append_empty_r, ?append_assoc. reflexivity. }
    assert (Hpid : wire_safe ("pid", VStr id) = true)
      by (unfold wire_safe; cbn [fst snd]; rewrite Hid, Hend; reflexivity).
    assert (Hargs : wire_safe ("args", VList [in_dir; out_dir]) = true)
      by (unfold wire_safe; cbn [fst snd forallb last List.length];
          rewrite Hin, Hout, Hoend; reflexivity).
    assert (Hsafe : forallb wire_safe data = true)
      by (unfold data; cbn [forallb]; rewrite Hpid, Hargs; reflexivity).
    pose proof (roundtrip_fields data c Hsafe) as Hrt.
    rewrite <- Hline in Hrt.
    pose proof (parseInput_str_state line c ltac:(discriminate)) as Hst.
    destruct (parseInput (PyStr line) c) as [c' r].
    cbn [fst snd] in *. subst c' r. reflexivity.
  - step_command. cbn [dict_get data].
    destruct (string_dec "action" "action") as [_|Hn]; [|contradiction].
    destruct (string_dec "pid" "action") as [Hn|_]; [discriminate|].
    destruct (string_dec "pid" "pid") as [_|Hn]; [|contradiction].
    destruct (string_dec "args" "action") as [Hn|_]; [discriminate|].
    destruct (string_dec "args" "pid") as [Hn|_]; [discriminate|].
    destruct (string_dec "args" "args") as [_|Hn]; [|contradiction].
    cbn [str_of_field id_of_field existsb String.eqb Ascii.eqb Bool.eqb negb
         orb andb subscript nth_error].
    rewrite Hein, Heout. reflexivity.
Qed.
End CommandFacts.

Lemma invalid_action_rejected_witness :
  handleListenerInput [("action", VStr "stop")] env_ok solver1 =
    (with_line solver1 (received_line [("action", VStr "stop")]),
     Raise (Exception
              ("[ERROR] Invalid actions." ++ nl ++ tab
               ++ "Expected value in ['kill', 'start'] got "
               ++ str_of_field
                    (dict_get string_dec "action" [("action", VStr "stop")])))).
Proof.
  apply (invalid_action_rejected [("action", VStr "stop")] env_ok solver1).
  cbn. split; discriminate.
Defined.

Lemma start_without_paths_rejected_witness :
  exists e,
    handleListenerInput
      [("action", VStr "start"); ("pid", VStr "job2");
       ("args", VList ["/tmp/in"; "/tmp/out"])] env_no_input solver1 =
    (with_line solver1
       (received_line
          [("action", VStr "start"); ("pid", VStr "job2");
           ("args", VList ["/tmp/in"; "/tmp/out"])]),
     Raise e).
Proof.
  apply (start_without_paths_rejected
           [("action", VStr "start"); ("pid", VStr "job2");
            ("args", VList ["/tmp/in"; "/tmp/out"])] env_no_input solver1
           eq_refl).
  intros p0 p1 H0 H1. cbn in H0, H1.
  injection H0 as <-. injection H1 as <-. reflexivity.
Defined.

Lemma list_pid_raises_witness :
  parseInput (PyStr "action=kill;pid=a,b;") idle_communicator =
    (idle_communicator, Ok [("action", VStr "kill"); ("pid", VList ["a"; "b"])]) /\
  snd (handleListenerInput [("action", VStr "kill"); ("pid", VList ["a"; "b"])]
         env_ok solver1) = Raise (TypeError "unhashable type: 'list'").
Proof.
  split; [reflexivity|].
  rewrite (proj1 (list_pid_raises
                    [("action", VStr "kill"); ("pid", VList ["a"; "b"])]
                    env_ok solver1 ["a"; "b"] eq_refl) eq_refl).
  reflexivity.
Defined.

Lemma kill_line_kills_witness :
  parseInput (PyStr "action=kill;pid=job1;") idle_communicator =
    (idle_communicator, Ok [("action", VStr "kill"); ("pid", VStr "job1")]) /\
  exists s',
    handleListenerInput [("action", VStr "kill"); ("pid", VStr "job1")]
      env_ok solver1 = (s', Ok tt) /\
    dict_get pykey_eq_dec (KStr "job1") (threads s') = None.
Proof.
  assert (Hwf : dict_wf (threads solver1))
    by (repeat constructor; simpl; tauto).
  destruct (kill_line_kills "job1" idle_communicator env_ok solver1 worker_job1
              eq_refl eq_refl Hwf eq_refl) as (Hp & s' & Hh & Hg & _).
  split; [exact Hp|]. exists s'. split; assumption.
Defined.

Lemma start_line_spawns_witness :
  parseInput (PyStr "action=start;pid=job1;args=/tmp/in,/tmp/out;")
    idle_communicator =
    (idle_communicator,
     Ok [("action", VStr "start"); ("pid", VStr "job1");
         ("args", VList ["/tmp/in"; "/tmp/out"])]) /\
  handleListenerInput
    [("action", VStr "start"); ("pid", VStr "job1");
     ("args", VList ["/tmp/in"; "/tmp/out"])] env_ok solver0 =
  spawnThread (IdKey (KStr "job1")) ("/tmp/in", "/tmp/out") env_ok
    (with_line solver0
       (received_line
          [("action", VStr "start"); ("pid", VStr "job1");
           ("args", VList ["/tmp/in"; "/tmp/out"])])).
Proof.
  exact (start_line_spawns "job1" "/tmp/in" "/tmp/out" idle_communicator
           env_ok solver0 eq_refl eq_refl eq_refl eq_refl eq_refl eq_refl
           eq_refl).
Defined.

(** ** The communicator: start, stop, and the read handler *)

(** X21. When the validity probe fails on either socket, [start] returns
    normally with the communicator inactive. Its last event is the validity
    error; before it come what the slots of the sockets emitted while the
    connections were requested (forwarded socket errors and handshake
    lines), then the startup failure event if a connection wait failed: no
    status line, no [started]. *)
Theorem start_invalid_inactive (c : Communicator) :
  isValid (readSocket c) && isValid (writeSocket c) = false ->
  exists c' failure,
    start c = (c', Ok tt) /\
    isActive c' = false /\
    emitted c' =
      (emitted c ++ primed_events (S (connections c)) c ++ failure ++
       [(sig_stderr, [PyStr "Sockets Failed Validity Test"])])%list /\
    (if waitForConnected (writeSocket c) && waitForConnected (readSocket c)
     then failure = []
     else exists ev, startup_failure ev /\ failure = [ev]) /\
    Forall (fun ev => fst ev = sig_stderr \/ fst ev = sig_sent)
      (primed_events (S (connections c)) c ++ failure)%list.
Proof.
  intros Hinv.
  destruct (start_outcome c) as (failure & Hfail & Hs).
  cbv zeta in *. rewrite Hinv in Hs.
  eexists. exists failure. split; [exact Hs|]. cbn [isActive emitted].
  split; [reflexivity|]. split; [reflexivity|]. split; [exact Hfail|].
  apply Forall_app. split.
  - eapply Forall_impl; [|apply primed_events_kinds].
    intros ev [[E _]|E]; auto.
  - destruct (waitForConnected (writeSocket c) && waitForConnected (readSocket c)).
    + subst failure. constructor.
    + destruct Hfail as (ev & [message ->] & ->).
      constructor; [left; reflexivity | constructor].
Qed.

Lemma copies_singleton {A : Type} (n : nat) (x : A) : copies n [x] = repeat x n.
Proof. induction n as [|n IH]; cbn; [reflexivity | now rewrite IH]. Qed.

(** X22. When both sockets connect within the wait and pass the validity
    probe, [start] returns normally with the communicator active. It hands
    to the outbound socket, and emits as [sent], what the slots of the
    sockets send while the connections are requested, and then emits the
    status line "Communicator Primed" and [started]. When each socket fires
    [connected] once, these are the handshake line of the read socket and
    then that of the write socket, each once per call of [start] so far. *)
Theorem start_connected_valid (c : Communicator) :
  waitForConnected (writeSocket c) = true ->
  waitForConnected (readSocket c) = true ->
  isValid (readSocket c) = true ->
  isValid (writeSocket c) = true ->
  let n := S (connections c) in
  exists c',
    start c = (c', Ok tt) /\
    isActive c' = true /\
    connections c' = n /\
    written c' = (written c ++ primed_writes n c)%list /\
    emitted c' =
      (emitted c ++ primed_events n c ++
       [(sig_stdout, [PyStr "Communicator Primed"]); (sig_started, [])])%list /\
    (connectToServer (readSocket c) = [connected] ->
     connectToServer (writeSocket c) = [connected] ->
     let lines :=
       (repeat ("read socket connected" ++ nl)%string n ++
        repeat ("write socket connected" ++ nl)%string n)%list in
     primed_writes n c = lines /\
     primed_events n c = map (fun line => (sig_sent, [PyStr line])) lines).
Proof.
  intros Hw Hr Hvr Hvw.
  destruct (start_outcome c) as (failure & Hfail & Hs).
  cbv zeta in *. rewrite Hw, Hr in Hfail. rewrite Hvr, Hvw in Hs.
  cbn [andb] in *. subst failure. cbn [app] in Hs.
  eexists. split; [exact Hs|]. cbn [isActive connections written emitted].
  repeat (split; [reflexivity|]).
  intros Hcr Hcw. unfold primed_writes, primed_events, fired_writes, fired_events.
  rewrite Hcr, Hcw. cbn [flat_map slot_writes slot_events].
  rewrite !app_nil_r, !copies_singleton, map_app, !map_repeat.
  split; reflexivity.
Qed.

(** X23. When both sockets confirm their disconnection within the wait,
    [stop] returns normally with the communicator inactive, having emitted
    the status line "Sockets disconnected" and then [stopped]. *)
Theorem stop_confirmed (c : Communicator) :
  waitForDisconnected (writeSocket c) = true ->
  waitForDisconnected (readSocket c) = true ->
  exists c',
    stop c = (c', Ok tt) /\
    isActive c' = false /\
    emitted c' =
      (emitted c ++
       [(sig_stdout, [PyStr "Sockets disconnected"]); (sig_stopped, [])])%list.
Proof.
  intros Hw Hr. pose proof (stop_outcome c) as Hout.
  rewrite Hw, Hr in Hout. exact Hout.
Qed.

(** X24. Whenever a socket does not confirm its disconnection, [stop]
    raises a [TypeError] from its call of [stderr.emit] with two arguments,
    and the communicator is left exactly as it was: nothing is emitted and
    the active flag is not cleared. *)
Theorem stop_unconfirmed_raises (c : Communicator) :
  waitForDisconnected (writeSocket c) && waitForDisconnected (readSocket c)
    = false ->
  stop c = (c, Raise (TypeError "wrong number of arguments in emit")).
Proof.
  intros Hd. pose proof (stop_outcome c) as Hout.
  rewrite Hd in Hout. exact Hout.
Qed.

(** X25. The read handler emits [received] once, with the decoded message,
    after the diagnostic if there is one, whenever the text decodes; when
    the decoder raises, the handler raises the same exception, emits
    nothing and leaves the communicator as it was. *)
Theorem read_ready_outcome (msg : string) (c : Communicator) :
  match snd (parseInput (PyStr msg) c) with
  | Ok d =>
      handleReadSocketReadReady msg c =
        (fst (emit sig_received [PyDict d] (fst (parseInput (PyStr msg) c))),
         Ok tt)
  | Raise e => handleReadSocketReadReady msg c = (c, Raise e)
  end.
Proof.
  unfold handleReadSocketReadReady, bind.
  destruct msg as [|ch msg].
  - reflexivity.
  - pose proof (parseInput_str_state (String ch msg) c ltac:(discriminate)) as Hst.
    destruct (parseInput (PyStr (String ch msg)) c) as [c' [d|e]];
      cbn [fst snd] in *; subst c'; reflexivity.
Qed.

Lemma start_invalid_inactive_witness :
  exists c' failure,
    start (Communicator_init None refused_socket refused_socket) = (c', Ok tt) /\
    isActive c' = false /\
    emitted c' =
      ([(sig_stderr, [PySocketError "LocalSocketError.ServerNotFoundError"]);
        (sig_stderr, [PySocketError "LocalSocketError.ServerNotFoundError"])]
       ++ failure ++
       [(sig_stderr, [PyStr "Sockets Failed Validity Test"])])%list /\
    (exists ev, startup_failure ev /\ failure = [ev]) /\
    Forall (fun ev => fst ev = sig_stderr \/ fst ev = sig_sent)
      ([(sig_stderr, [PySocketError "LocalSocketError.ServerNotFoundError"]);
        (sig_stderr, [PySocketError "LocalSocketError.ServerNotFoundError"])]
       ++ failure)%list.
Proof.
  exact (start_invalid_inactive
           (Communicator_init None refused_socket refused_socket) eq_refl).
Defined.

Lemma start_connected_valid_witness :
  exists c',
    start idle_communicator = (c', Ok tt) /\
    isActive c' = true /\
    connections c' = 1 /\
    written c' = ["read socket connected" ++ nl; "write socket connected" ++ nl] /\
    emitted c' =
      [(sig_sent, [PyStr ("read socket connected" ++ nl)]);
       (sig_sent, [PyStr ("write socket connected" ++ nl)]);
       (sig_stdout, [PyStr "Communicator Primed"]); (sig_started, [])].
Proof.
  destruct (start_connected_valid idle_communicator eq_refl eq_refl eq_refl
              eq_refl) as (c' & Hs & Hact & Hn & Hw & He & _).
  exists c'. repeat split; assumption.
Defined.

Lemma stop_confirmed_witness :
  exists c',
    stop idle_communicator = (c', Ok tt) /\
    isActive c' = false /\
    emitted c' =
      [(sig_stdout, [PyStr "Sockets disconnected"]); (sig_stopped, [])].
Proof.
  exact (stop_confirmed idle_communicator eq_refl eq_refl).
Defined.

Lemma stop_unconfirmed_raises_witness :
  stop (Communicator_init None stuck_socket good_socket) =
    (Communicator_init None stuck_socket good_socket,
     Raise (TypeError "wrong number of arguments in emit")).
Proof.
  exact (stop_unconfirmed_raises
           (Communicator_init None stuck_socket good_socket) eq_refl).
Defined.

(** ** The registry over sequences of operations *)

Section CoherenceFacts.
Context {obj : Type} `{External obj}.
Implicit Types (s : JuliaSolver obj) (k : pykey) (env : Env obj).
Implicit Type d : dict pykey JuliaWorkerThread.

Lemma Forall_dict_remove_pair (P : pykey * JuliaWorkerThread -> Prop) k d :
  Forall P d -> Forall P (dict_remove pykey_eq_dec k d).
Proof.
  induction 1 as [|[k' v'] d Hx Hd IH]; cbn; [constructor|].
  destruct (pykey_eq_dec k k'); [exact Hd | now constructor].
Qed.

Lemma oids_remove_incl k d (n : nat) :
  In n (map (fun kw => oid (snd kw)) (dict_remove pykey_eq_dec k d)) ->
  In n (map (fun kw => oid (snd kw)) d).
Proof.
  induction d as [|[k' v'] d IH]; cbn; [trivial|].
  destruct (pykey_eq_dec k k'); cbn; [now right | intros [Hn|Hn]; auto].
Qed.

Lemma oids_remove_NoDup k d :
  NoDup (map (fun kw => oid (snd kw)) d) ->
  NoDup (map (fun kw => oid (snd kw)) (dict_remove pykey_eq_dec k d)).
Proof.
  induction d as [|[k' v'] d IH]; cbn; [trivial|].
  intros Hnd. inversion Hnd as [|? ? Hni Hd]; subst.
  destruct (pykey_eq_dec k k'); [exact Hd|]. cbn. constructor.
  - intros Hi. apply Hni. eapply oids_remove_incl. exact Hi.
  - now apply IH.
Qed.

Lemma oids_update_incl k w d (n : nat) :
  In n (map (fun kw => oid (snd kw)) (dict_update pykey_eq_dec d k w)) ->
  In n (map (fun kw => oid (snd kw)) d) \/ n = oid w.
Proof.
  induction d as [|[k' v'] d IH]; cbn.
  - intros [Hn|[]]; auto.
  - destruct (pykey_eq_dec k k'); cbn.
    + intros [Hn|Hn]; auto.
    + intros [Hn|Hn]; [auto|]. destruct (IH Hn); auto.
Qed.

Lemma oids_update_NoDup k w d :
  NoDup (map (fun kw => oid (snd kw)) d) ->
  ~ In (oid w) (map (fun kw => oid (snd kw)) d) ->
  NoDup (map (fun kw => oid (snd kw)) (dict_update pykey_eq_dec d k w)).
Proof.
  induction d as [|[k' v'] d IH]; cbn.
  - intros _ _. repeat constructor. intros [].
  - intros Hnd Hni. inversion Hnd as [|? ? Hv' Hd]; subst.
    destruct (pykey_eq_dec k k'); cbn.
    + constructor; [tauto | exact Hd].
    + constructor.
      * intros Hi. apply oids_update_incl in Hi as [Hi|Hi];
          [tauto | apply Hni; left; exact Hi].
      * apply IH; tauto.
Qed.

Lemma coherent_remove k s s' :
  registry_coherent s ->
  threads s' = dict_remove pykey_eq_dec k (threads s) ->
  next_oid s <= next_oid s' -> registry_coherent s'.
Proof.
  intros [Hall Hnd] Hth Hn. split; rewrite Hth.
  - apply Forall_dict_remove_pair. eapply Forall_impl; [|exact Hall].
    cbn. intros kw [Hlt Hid]. split; [lia | exact Hid].
  - now apply oids_remove_NoDup.
Qed.

Lemma coherent_same s s' :
  registry_coherent s -> threads s' = threads s ->
  next_oid s <= next_oid s' -> registry_coherent s'.
Proof.
  intros [Hall Hnd] Hth Hn. split; rewrite Hth; [|exact Hnd].
  eapply Forall_impl; [|exact Hall].
  cbn. intros kw [Hlt Hid]. split; [lia | exact Hid].
Qed.

Lemma step_coherent s (o : op obj) :
  registry_coherent s -> registry_coherent (step s o).
Proof.
  intros Hok. destruct o as [[k|l] args env|[k|l]|id|id e]; unfold step.
  - destruct (spawnThread_outcome k args env s)
      as (s' & rest & Hsp & Hn & _ & Hth & _ & _).
    rewrite Hsp. cbn [fst].
    set (new := JuliaWorkerThread_init (next_oid s) args k env) in *.
    assert (Hbase : registry_coherent
              {| threads :=
                   dict_update pykey_eq_dec
                     (dict_remove pykey_eq_dec k (threads s)) k new;
                 communicator := communicator s;
                 next_oid := S (next_oid s); trace := trace s |}).
    { destruct Hok as [Hall Hnd].
      assert (Hrem : Forall
                (fun kw => oid (snd kw) < next_oid s /\
                           forall p, fst kw = KStr p -> pid (snd kw) = p)
                (dict_remove pykey_eq_dec k (threads s)))
        by now apply Forall_dict_remove_pair.
      split; cbn [threads next_oid].
      - apply Forall_dict_update_pair.
        + eapply Forall_impl; [|exact Hrem].
          cbn. intros kw [Hlt Hid]. split; [lia | exact Hid].
        + cbn. split; [lia|]. intros p ->. reflexivity.
      - apply oids_update_NoDup; [now apply oids_remove_NoDup|].
        intros Hi. apply in_map_iff in Hi as (kw & Heq & Hin).
        rewrite Forall_forall in Hrem. destruct (Hrem kw Hin) as [Hlt _].
        rewrite Heq in Hlt. cbn in Hlt. lia. }
    destruct Hth as [Hth|Hth].
    + eapply coherent_same; [exact Hbase | exact Hth | cbn; lia].
    + eapply coherent_remove; [exact Hbase | exact Hth | cbn; lia].
  - unfold spawnThread. cbv beta iota delta [bind]. rewrite logData_eq.
    eapply coherent_same; [exact Hok | reflexivity | cbn; lia].
  - rewrite killThread_eq.
    destruct (dict_get pykey_eq_dec k (threads s)); cbn [fst].
    + eapply coherent_remove; [exact Hok | reflexivity | cbn; lia].
    + eapply coherent_same; [exact Hok | reflexivity | cbn; lia].
  - cbn. exact Hok.
  - rewrite handleThreadFinished_eq. cbv zeta.
    destruct (dict_get pykey_eq_dec (KStr id) (threads s)); cbn [fst].
    + eapply coherent_remove; [exact Hok | reflexivity | cbn; lia].
    + eapply coherent_same; [exact Hok | reflexivity | cbn; lia].
  - rewrite handleThreadError_eq.
    destruct (dict_get pykey_eq_dec (KStr id) (threads s)); cbn [fst].
    + eapply coherent_remove; [exact Hok | reflexivity | cbn; lia].
    + exact Hok.
Qed.

(** X26. In every state the supervisor reaches from its creation by start,
    kill, finished and error operations, a worker registered under a string
    id carries this id, every registered worker is an object created
    earlier, and no worker object is registered under two ids. *)
Theorem registry_stays_coherent (name : option string) (rs ws : QLocalSocket)
    (args_str : string) (os : list (op obj)) :
  let s := run_ops os (JuliaSolver_init name rs ws args_str) in
  (forall k w, In (k, w) (threads s) ->
     oid w < next_oid s /\ forall p, k = KStr p -> pid w = p) /\
  NoDup (map (fun kw => oid (snd kw)) (threads s)).
Proof.
  cbv zeta.
  assert (Hinit : registry_coherent
                    (JuliaSolver_init (obj := obj) name rs ws args_str)).
  { unfold JuliaSolver_init. rewrite logData_eq. split; cbn; constructor. }
  assert (Hall : forall l s, registry_coherent s ->
                             registry_coherent (run_ops l s)).
  { induction l as [|o l IH]; intros s Hs; [exact Hs|].
    cbn. apply IH. now apply step_coherent. }
  destruct (Hall os _ Hinit) as [Hf Hnd]. split; [|exact Hnd].
  intros k w Hin. rewrite Forall_forall in Hf. exact (Hf (k, w) Hin).
Qed.

(** X27. A start command for an unregistered id whose run ends normally,
    followed by a kill of the same id or by the finished event of a worker
    with this id, gives back the registry of before: the entry added by the
    start is the one removed, and the worker terminated or released is the
    one the start created. *)
Theorem start_then_remove_restores k (args : string * string) env s :
  dict_get pykey_eq_dec k (threads s) = None ->
  snd (run_body env (JuliaWorkerThread_init (next_oid s) args k env) []) = Ok tt ->
  let new := JuliaWorkerThread_init (next_oid s) args k env in
  let s1 := fst (spawnThread (IdKey k) args env s) in
  (snd (killThread (IdKey k) s1) = Ok tt /\
   threads (fst (killThread (IdKey k) s1)) = threads s /\
   trace (fst (killThread (IdKey k) s1)) = (trace s1 ++ [Terminate new])%list) /\
  (forall id, k = KStr id ->
     snd (handleThreadFinished id s1) = Ok tt /\
     threads (fst (handleThreadFinished id s1)) = threads s /\
     trace (fst (handleThreadFinished id s1)) =
       (trace s1 ++ [DeleteLater new])%list).
Proof.
  intros Hg Hok new s1.
  assert (Hth : threads s1 = (threads s ++ [(k, new)])%list).
  { subst s1. rewrite spawnThread_eq. fold new.
    rewrite (deliver_ok env new _ Hok). cbn [fst].
    unfold registered_state. cbn [threads with_trace]. fold new.
    rewrite (dict_remove_absent pykey_eq_dec k (threads s) Hg).
    apply dict_update_fresh.
    now apply (proj1 (dict_get_None pykey_eq_dec k (threads s))). }
  assert (Hget : dict_get pykey_eq_dec k (threads s1) = Some new).
  { rewrite Hth, dict_get_app, Hg. cbn.
    destruct (pykey_eq_dec k k); [reflexivity | contradiction]. }
  assert (Hrem : dict_remove pykey_eq_dec k (threads s1) = threads s)
    by (rewrite Hth; now apply dict_remove_appended).
  split.
  - rewrite killThread_eq, Hget.
    cbn [fst snd threads trace with_line with_trace with_threads].
    repeat split. exact Hrem.
  - intros id ->. rewrite handleThreadFinished_eq. cbv zeta. rewrite Hget.
    cbn [fst snd threads trace with_line with_trace with_threads].
    repeat split. exact Hrem.
Qed.
End CoherenceFacts.

Lemma start_then_remove_restores_witness :
  dict_get pykey_eq_dec (KStr "job1") (threads solver0) = None /\
  snd (run_body env_ok worker_job1 []) = Ok tt /\
  threads (fst (killThread (IdKey (KStr "job1")) solver1)) = threads solver0 /\
  threads (fst (handleThreadFinished "job1" solver1)) = threads solver0.
Proof.
  split; [reflexivity|]. split; [reflexivity|].
  destruct (start_then_remove_restores (KStr "job1") ("/tmp/in", "/tmp/out")
              env_ok solver0 eq_refl eq_refl) as [(_ & Hk & _) Hf].
  split; [exact Hk|].
  destruct (Hf "job1" eq_refl) as (_ & Hfin & _). exact Hfin.
Defined.

Lemma registry_stays_coherent_witness :
  In (KStr "job1", worker_job1) (threads solver1) /\
  oid worker_job1 < next_oid solver1 /\
  pid worker_job1 = "job1".
Proof.
  unfold solver1, solver0.
  assert (Hin : In (KStr "job1", worker_job1)
                  (threads (run_ops [start_job1]
                              (JuliaSolver_init None good_socket good_socket "[]"))))
    by (left; reflexivity).
  split; [exact Hin|].
  pose proof (registry_stays_coherent None good_socket good_socket "[]"
                [start_job1]) as Hc.
  cbv zeta in Hc. destruct Hc as [Hc _].
  specialize (Hc (KStr "job1") worker_job1 Hin). destruct Hc as [Hlt Hid].
  split; [exact Hlt | exact (Hid "job1" eq_refl)].
Defined.
